(** * Specifications for Go: the PostgreSQL compiling visitor

    A shallow embedding of [specification.go] (the specification tree and
    its [Accept] dispatch) and of [postgres/visitor.go] (the visitor that
    accumulates condition fragments, arguments, order clauses, limit and
    offset, and [BuildQuery], which assembles the final query text and
    renumbers the generic [?] placeholders into [$1], [$2], ...).

    - Go strings are byte sequences: they are modelled by [string], a list
      of 8-bit [ascii] characters.  [for _, ch := range s] decodes UTF-8 and
      [strings.Builder.WriteRune] encodes it; both are modelled, since the
      loop of [BuildQuery] goes through them.
    - Go's [int] is modelled by [Z]: the visitor only compares integers
      with zero, prints them, and increments the placeholder index, which
      the length of the text bounds.
    - Values of type [interface{}] are opaque to the visitor: they are a
      type parameter [V].
    - The visitor is a struct updated in place through a pointer: every
      method takes the visitor and returns it updated.
    - The interface [SpecificationVisitor] is a class, [*postgres.Visitor]
      an instance of it; [walk] ties the recursion between [Accept] and
      [VisitAnd]/[VisitOr].  Trees hold non-nil specifications only; the
      nil tree of the caller is [None] in [compile]. *)

From Stdlib Require Import ZArith Lia Bool List Ascii String DecimalString.
From stdpp Require Import gmap strings.
Import ListNotations.
Open Scope Z_scope.
Set Warnings "-register-all".

(** ** The parts of the Go language and library the visitor relies on *)

Module Go.

(** [byte] values of a string, and the conversion [byte(x)] that keeps the
    low eight bits. *)
Definition byteZ (c : ascii) : Z := Z.of_N (N_of_ascii c).
Definition chr (b : Z) : ascii := ascii_of_N (Z.to_N b).
Definition byte (x : Z) : Z := x mod 256.

(** Constants of [unicode/utf8]. *)
Definition RuneError : Z := 0xFFFD.
Definition RuneSelf : Z := 0x80.
Definition MaxRune : Z := 0x10FFFF.
Definition surrogateMin : Z := 0xD800.
Definition surrogateMax : Z := 0xDFFF.
Definition tx : Z := 0x80.
Definition t2 : Z := 0xC0.
Definition t3 : Z := 0xE0.
Definition t4 : Z := 0xF0.
Definition t5 : Z := 0xF8.
Definition maskx : Z := 0x3F.
Definition mask2 : Z := 0x1F.
Definition mask3 : Z := 0x0F.
Definition mask4 : Z := 0x07.
Definition rune1Max : Z := 0x7F.
Definition rune2Max : Z := 0x7FF.
Definition rune3Max : Z := 0xFFFF.
Definition locb : Z := 0x80.
Definition hicb : Z := 0xBF.

(** [locb <= b && b <= hicb]: a continuation byte. *)
Definition isCont (c : ascii) : bool :=
  (locb <=? byteZ c) && (byteZ c <=? hicb).

(** [runtime.decoderune] on the suffix [s] of the string being ranged
    over: the non-ASCII rune at the start of [s] and its width in bytes,
    or [(RuneError, 1)] when no well-formed encoding starts there. *)
Definition decoderune (s : string) : Z * nat :=
  match s with
  | EmptyString => (RuneError, 1%nat)
  | String c0 s1 =>
    let b0 := byteZ c0 in
    if (t2 <=? b0) && (b0 <? t3) then
      match s1 with
      | String c1 _ =>
        if isCont c1 then
          let r := Z.lor (Z.shiftl (Z.land b0 mask2) 6)
                         (Z.land (byteZ c1) maskx) in
          if rune1Max <? r then (r, 2%nat) else (RuneError, 1%nat)
        else (RuneError, 1%nat)
      | _ => (RuneError, 1%nat)
      end
    else if (t3 <=? b0) && (b0 <? t4) then
      match s1 with
      | String c1 (String c2 _) =>
        if isCont c1 && isCont c2 then
          let r := Z.lor (Z.lor (Z.shiftl (Z.land b0 mask3) 12)
                                (Z.shiftl (Z.land (byteZ c1) maskx) 6))
                         (Z.land (byteZ c2) maskx) in
          if (rune2Max <? r)
             && negb ((surrogateMin <=? r) && (r <=? surrogateMax))
          then (r, 3%nat) else (RuneError, 1%nat)
        else (RuneError, 1%nat)
      | _ => (RuneError, 1%nat)
      end
    else if (t4 <=? b0) && (b0 <? t5) then
      match s1 with
      | String c1 (String c2 (String c3 _)) =>
        if isCont c1 && isCont c2 && isCont c3 then
          let r := Z.lor (Z.lor (Z.lor (Z.shiftl (Z.land b0 mask4) 18)
                                       (Z.shiftl (Z.land (byteZ c1) maskx) 12))
                                (Z.shiftl (Z.land (byteZ c2) maskx) 6))
                         (Z.land (byteZ c3) maskx) in
          if (rune3Max <? r) && (r <=? MaxRune)
          then (r, 4%nat) else (RuneError, 1%nat)
        else (RuneError, 1%nat)
      | _ => (RuneError, 1%nat)
      end
    else (RuneError, 1%nat)
  end.

(** [for _, ch := range s]: the runes the loop body sees, in order.  A
    byte below [RuneSelf] is its own rune; otherwise [decoderune] gives
    the rune and the index advances by its width ([skip] counts the bytes
    of the current rune still to be passed over). *)
Fixpoint rangeString (s : string) (skip : nat) : list Z :=
  match s with
  | EmptyString => []
  | String c t =>
    match skip with
    | S n => rangeString t n
    | O =>
      if byteZ c <? RuneSelf then byteZ c :: rangeString t 0
      else let (r, w) := decoderune s in r :: rangeString t (w - 1)
    end
  end.

Definition runes (s : string) : list Z := rangeString s 0.

(** [utf8.AppendRune], the encoder behind [strings.Builder.WriteRune]. *)
Definition encodeRune (r : Z) : string :=
  let enc3 (r : Z) :=
    String (chr (Z.lor t3 (byte (Z.shiftr r 12))))
      (String (chr (Z.lor tx (Z.land (byte (Z.shiftr r 6)) maskx)))
         (String (chr (Z.lor tx (Z.land (byte r) maskx))) EmptyString)) in
  if (0 <=? r) && (r <=? rune1Max) then String (chr (byte r)) EmptyString
  else if (0 <=? r) && (r <=? rune2Max) then
    String (chr (Z.lor t2 (byte (Z.shiftr r 6))))
      (String (chr (Z.lor tx (Z.land (byte r) maskx))) EmptyString)
  else if (r <? 0) || (MaxRune <? r)
          || ((surrogateMin <=? r) && (r <=? surrogateMax)) then
    enc3 RuneError
  else if r <=? rune3Max then enc3 r
  else
    String (chr (Z.lor t4 (byte (Z.shiftr r 18))))
      (String (chr (Z.lor tx (Z.land (byte (Z.shiftr r 12)) maskx)))
         (String (chr (Z.lor tx (Z.land (byte (Z.shiftr r 6)) maskx)))
            (String (chr (Z.lor tx (Z.land (byte r) maskx))) EmptyString))).

(** [utf8.ValidString]: no decoding step reports an encoding error. *)
Fixpoint validFrom (s : string) (skip : nat) : bool :=
  match s with
  | EmptyString => Nat.eqb skip 0
  | String c t =>
    match skip with
    | S n => validFrom t n
    | O =>
      if byteZ c <? RuneSelf then validFrom t 0
      else let (r, w) := decoderune s in
           negb (Nat.eqb w 1) && validFrom t (w - 1)
    end
  end.

Definition ValidString (s : string) : bool := validFrom s 0.

(** [strings.Builder]: the pieces written so far, in order; [String()]
    is their concatenation. *)
Inductive write : Type :=
| WriteString (s : string)
| WriteRune (r : Z).

Definition written (w : write) : string :=
  match w with
  | WriteString s => s
  | WriteRune r => encodeRune r
  end.

Definition Builder_String (b : list write) : string :=
  fold_right (fun w acc => written w +:+ acc) "" b.

(** [strings.Join]. *)
Fixpoint Join (elems : list string) (sep : string) : string :=
  match elems with
  | [] => ""
  | x :: rest =>
    match rest with
    | [] => x
    | _ => x +:+ sep +:+ Join rest sep
    end
  end.

(** The [%d] verb of [fmt.Sprintf]. *)
Definition itoa (n : Z) : string := NilZero.string_of_int (Z.to_int n).

(** The number of [?] bytes in [s], as [strings.Count(s, "?")] gives it. *)
Fixpoint countQ (s : string) : nat :=
  match s with
  | EmptyString => 0%nat
  | String c t => if byteZ c =? 63 then S (countQ t) else countQ t
  end.

End Go.

(** ** specification.go: the specification tree *)

Module specifications.

(** One constructor per specification struct, named after its factory
    function.  A value of this type is a non-nil [Specification]. *)
Inductive Specification (V : Type) : Type :=
| Equal (field : string) (value : V)
| NotEqual (field : string) (value : V)
| In (field : string) (values : list V)
| And (specs : list (Specification V))
| Or (specs : list (Specification V))
| Limit (limit : Z)
| OrderBy (field direction : string)
| GreaterThan (field : string) (value : V)
| LowerThan (field : string) (value : V)
| Like (field : string) (value : V)
| GreaterThanOrEqual (field : string) (value : V)
| LowerThanOrEqual (field : string) (value : V)
| Offset (offset : Z).

Arguments Equal {V} field value.
Arguments NotEqual {V} field value.
Arguments In {V} field values.
Arguments And {V} specs.
Arguments Or {V} specs.
Arguments Limit {V} limit.
Arguments OrderBy {V} field direction.
Arguments GreaterThan {V} field value.
Arguments LowerThan {V} field value.
Arguments Like {V} field value.
Arguments GreaterThanOrEqual {V} field value.
Arguments LowerThanOrEqual {V} field value.
Arguments Offset {V} offset.

(** The interface [SpecificationVisitor]: one method per kind of node,
    each taking the node's payload and the visitor it updates. *)
Class SpecificationVisitor (V T : Type) : Type := {
  VisitEqual : string -> V -> T -> T;
  VisitNotEqual : string -> V -> T -> T;
  VisitIn : string -> list V -> T -> T;
  VisitAnd : list (Specification V) -> T -> T;
  VisitOr : list (Specification V) -> T -> T;
  VisitLimit : Z -> T -> T;
  VisitOrder : string -> string -> T -> T;
  VisitGreaterThan : string -> V -> T -> T;
  VisitLowerThan : string -> V -> T -> T;
  VisitLike : string -> V -> T -> T;
  VisitGreaterThanOrEqual : string -> V -> T -> T;
  VisitLowerThanOrEqual : string -> V -> T -> T;
  VisitOffset : Z -> T -> T
}.

(** The [Accept] methods: each node calls the visitor method of its kind
    with its own payload. *)
Definition Accept {V T : Type} `{SpecificationVisitor V T}
    (s : Specification V) (v : T) : T :=
  match s with
  | Equal field value => VisitEqual field value v
  | NotEqual field value => VisitNotEqual field value v
  | In field values => VisitIn field values v
  | And specs => VisitAnd specs v
  | Or specs => VisitOr specs v
  | Limit limit => VisitLimit limit v
  | OrderBy field direction => VisitOrder field direction v
  | GreaterThan field value => VisitGreaterThan field value v
  | LowerThan field value => VisitLowerThan field value v
  | Like field value => VisitLike field value v
  | GreaterThanOrEqual field value => VisitGreaterThanOrEqual field value v
  | LowerThanOrEqual field value => VisitLowerThanOrEqual field value v
  | Offset offset => VisitOffset offset v
  end.

End specifications.

(** ** postgres/visitor.go: the compiling visitor *)

Module postgres.
Import Go specifications.

(** [len(x)] of a slice. *)
Definition len {A : Type} (l : list A) : Z := Z.of_nat (length l).

Section Visitor.
Context {V : Type}.

Record Visitor : Type := mkVisitor {
  conditions : list string;
  args : list V;
  fieldMap : gmap string string;
  orderClauses : list string;
  limit : Z;
  offset : Z
}.

Definition NewVisitor (fieldMap : gmap string string) : Visitor :=
  {| conditions := []; args := []; fieldMap := fieldMap;
     orderClauses := []; limit := 0; offset := 0 |}.

(** Assignments to one field of the visitor. *)
Definition setConditions (c : list string) (v : Visitor) : Visitor :=
  {| conditions := c; args := args v; fieldMap := fieldMap v;
     orderClauses := orderClauses v; limit := limit v; offset := offset v |}.
Definition setArgs (a : list V) (v : Visitor) : Visitor :=
  {| conditions := conditions v; args := a; fieldMap := fieldMap v;
     orderClauses := orderClauses v; limit := limit v; offset := offset v |}.
Definition setOrderClauses (o : list string) (v : Visitor) : Visitor :=
  {| conditions := conditions v; args := args v; fieldMap := fieldMap v;
     orderClauses := o; limit := limit v; offset := offset v |}.
Definition setLimit (n : Z) (v : Visitor) : Visitor :=
  {| conditions := conditions v; args := args v; fieldMap := fieldMap v;
     orderClauses := orderClauses v; limit := n; offset := offset v |}.
Definition setOffset (n : Z) (v : Visitor) : Visitor :=
  {| conditions := conditions v; args := args v; fieldMap := fieldMap v;
     orderClauses := orderClauses v; limit := limit v; offset := n |}.

Definition mapField (v : Visitor) (domainField : string) : string :=
  match fieldMap v !! domainField with
  | Some dbField => dbField
  | None => domainField
  end.

Definition VisitEqual (field : string) (value : V) (v : Visitor) : Visitor :=
  let dbField := mapField v field in
  let v := setConditions (conditions v ++ [dbField +:+ " = ?"]) v in
  setArgs (args v ++ [value]) v.

(** The loop [for i := range values] of [VisitIn], on the slice [qs]
    and the argument list: its body, and the loop. *)
Definition VisitIn_step (values : list V) (st : list string * list V)
    (i : nat) : list string * list V :=
  let '(qs, a) := st in
  (<[i := "?"]> qs,
   match values !! i with Some x => a ++ [x] | None => a end).

Definition VisitIn_loop (values : list V) (qs : list string) (a : list V)
    : list string * list V :=
  fold_left (VisitIn_step values) (seq 0 (length values)) (qs, a).

Definition VisitIn (field : string) (values : list V) (v : Visitor) : Visitor :=
  let dbField := mapField v field in
  if len values =? 0 then
    setConditions (conditions v ++ ["1=0"]) v
  else
    let qs := replicate (length values) "" in
    let '(qs, a) := VisitIn_loop values qs (args v) in
    let v := setArgs a v in
    setConditions
      (conditions v ++ [dbField +:+ " IN (" +:+ Join qs ", " +:+ ")"]) v.

Section Children.
(** [s.Accept(...)] on a child: the dispatch back into this visitor. *)
Variable accept : Specification V -> Visitor -> Visitor.

Definition VisitAnd (specs : list (Specification V)) (v : Visitor) : Visitor :=
  let subVisitor :=
    fold_left (fun subVisitor s => accept s subVisitor) specs
              (NewVisitor (fieldMap v)) in
  let v :=
    if 0 <? len (conditions subVisitor) then
      let v :=
        setConditions
          (conditions v
             ++ ["(" +:+ Join (conditions subVisitor) " AND " +:+ ")"]) v in
      setArgs (args v ++ args subVisitor) v
    else v in
  let v := setOrderClauses (orderClauses v ++ orderClauses subVisitor) v in
  let v :=
    if 0 <? limit subVisitor then setLimit (limit subVisitor) v else v in
  if 0 <? offset subVisitor then setOffset (offset subVisitor) v else v.

(** One iteration of the loop of [VisitOr]. *)
Definition VisitOr_step (v : Visitor) (st : Visitor * list string)
    (s : Specification V) : Visitor * list string :=
  let '(subVisitor, orParts) := st in
  let temp := accept s (NewVisitor (fieldMap v)) in
  let '(subVisitor, orParts) :=
    if 0 <? len (conditions temp) then
      (setArgs (args subVisitor ++ args temp) subVisitor,
       orParts ++ ["(" +:+ Join (conditions temp) " AND " +:+ ")"])
    else (subVisitor, orParts) in
  let subVisitor :=
    setOrderClauses (orderClauses subVisitor ++ orderClauses temp)
                    subVisitor in
  let subVisitor :=
    if 0 <? limit temp then setLimit (limit temp) subVisitor
    else subVisitor in
  let subVisitor :=
    if 0 <? offset temp then setOffset (offset temp) subVisitor
    else subVisitor in
  (subVisitor, orParts).

Definition VisitOr (specs : list (Specification V)) (v : Visitor) : Visitor :=
  let '(subVisitor, orParts) :=
    fold_left (VisitOr_step v) specs (NewVisitor (fieldMap v), []) in
  let v :=
    if 0 <? len orParts then
      let v :=
        setConditions
          (conditions v ++ ["(" +:+ Join orParts " OR " +:+ ")"]) v in
      setArgs (args v ++ args subVisitor) v
    else v in
  let v := setOrderClauses (orderClauses v ++ orderClauses subVisitor) v in
  let v :=
    if 0 <? limit subVisitor then setLimit (limit subVisitor) v else v in
  if 0 <? offset subVisitor then setOffset (offset subVisitor) v else v.
End Children.

Definition VisitLimit (limit : Z) (v : Visitor) : Visitor := setLimit limit v.

Definition VisitOrder (field direction : string) (v : Visitor) : Visitor :=
  let dbField := mapField v field in
  setOrderClauses (orderClauses v ++ [dbField +:+ " " +:+ direction]) v.

Definition VisitGreaterThan (field : string) (value : V) (v : Visitor) : Visitor :=
  let dbField := mapField v field in
  let v := setConditions (conditions v ++ [dbField +:+ " > ?"]) v in
  setArgs (args v ++ [value]) v.

Definition VisitLowerThan (field : string) (value : V) (v : Visitor) : Visitor :=
  let dbField := mapField v field in
  let v := setConditions (conditions v ++ [dbField +:+ " < ?"]) v in
  setArgs (args v ++ [value]) v.

Definition VisitLike (field : string) (value : V) (v : Visitor) : Visitor :=
  let dbField := mapField v field in
  let v := setConditions (conditions v ++ [dbField +:+ " LIKE ?"]) v in
  setArgs (args v ++ [value]) v.

Definition VisitOffset (offset : Z) (v : Visitor) : Visitor := setOffset offset v.

Definition VisitNotEqual (field : string) (value : V) (v : Visitor) : Visitor :=
  let dbField := mapField v field in
  let v := setConditions (conditions v ++ [dbField +:+ " <> ?"]) v in
  setArgs (args v ++ [value]) v.

Definition VisitGreaterThanOrEqual (field : string) (value : V) (v : Visitor) : Visitor :=
  let dbField := mapField v field in
  let v := setConditions (conditions v ++ [dbField +:+ " >= ?"]) v in
  setArgs (args v ++ [value]) v.

Definition VisitLowerThanOrEqual (field : string) (value : V) (v : Visitor) : Visitor :=
  let dbField := mapField v field in
  let v := setConditions (conditions v ++ [dbField +:+ " <= ?"]) v in
  setArgs (args v ++ [value]) v.

(** The traversal: a node handed to this visitor runs the method of its
    kind, and [VisitAnd] and [VisitOr] hand the children back. *)
Fixpoint walk (s : Specification V) (v : Visitor) {struct s} : Visitor :=
  match s with
  | Equal field value => VisitEqual field value v
  | NotEqual field value => VisitNotEqual field value v
  | In field values => VisitIn field values v
  | And specs => VisitAnd walk specs v
  | Or specs => VisitOr walk specs v
  | Limit limit => VisitLimit limit v
  | OrderBy field direction => VisitOrder field direction v
  | GreaterThan field value => VisitGreaterThan field value v
  | LowerThan field value => VisitLowerThan field value v
  | Like field value => VisitLike field value v
  | GreaterThanOrEqual field value => VisitGreaterThanOrEqual field value v
  | LowerThanOrEqual field value => VisitLowerThanOrEqual field value v
  | Offset offset => VisitOffset offset v
  end.

(** [*Visitor] implements [SpecificationVisitor]. *)
#[export] Instance Visitor_SpecificationVisitor
    : SpecificationVisitor V Visitor := {|
  specifications.VisitEqual := VisitEqual;
  specifications.VisitNotEqual := VisitNotEqual;
  specifications.VisitIn := VisitIn;
  specifications.VisitAnd := VisitAnd walk;
  specifications.VisitOr := VisitOr walk;
  specifications.VisitLimit := VisitLimit;
  specifications.VisitOrder := VisitOrder;
  specifications.VisitGreaterThan := VisitGreaterThan;
  specifications.VisitLowerThan := VisitLowerThan;
  specifications.VisitLike := VisitLike;
  specifications.VisitGreaterThanOrEqual := VisitGreaterThanOrEqual;
  specifications.VisitLowerThanOrEqual := VisitLowerThanOrEqual;
  specifications.VisitOffset := VisitOffset
|}.

(** The body of the loop over the runes of the joined condition text:
    a [?] is written as the next positional marker, any other rune is
    written back. *)
Definition renumber_step (st : list write * Z) (ch : Z) : list write * Z :=
  let '(finalQuery, argIndex) := st in
  if ch =? 63 then
    (finalQuery ++ [WriteString ("$" +:+ itoa argIndex)], argIndex + 1)
  else (finalQuery ++ [WriteRune ch], argIndex).

(** The loop of [BuildQuery]: the builder and [argIndex] when it ends. *)
Definition renumber (fullCondition : string) : list write * Z :=
  fold_left renumber_step (runes fullCondition) ([], 1).

Definition BuildQuery (v : Visitor) (baseQuery : string) : string * list V :=
  let query := baseQuery in
  let query :=
    if 0 <? len (conditions v) then
      let fullCondition := Join (conditions v) " AND " in
      let '(finalQuery, _) := renumber fullCondition in
      query +:+ " WHERE " +:+ Builder_String finalQuery
    else query in
  let query :=
    if 0 <? len (orderClauses v) then
      query +:+ " ORDER BY " +:+ Join (orderClauses v) ", "
    else query in
  let query :=
    if 0 <? limit v then query +:+ " LIMIT " +:+ itoa (limit v) else query in
  let query :=
    if 0 <? offset v then query +:+ " OFFSET " +:+ itoa (offset v)
    else query in
  (query, args v).

End Visitor.
Arguments Visitor V : clear implicits.

End postgres.

(** ** What a tree contributes to an accumulator

    Structural readings of a specification tree, against which the visitor
    is checked: the values of its leaves, the condition fragments it adds,
    its order clauses, and the fragments as they read once the placeholders
    are numbered. *)

Module Tree.
Import Go specifications postgres.

Section Readings.
Context {V : Type}.

(** The value payloads of the leaves in traversal order: one per
    comparison or Like leaf, the elements of each In. *)
Fixpoint leafValues (s : Specification V) : list V :=
  match s with
  | Equal _ x | NotEqual _ x | GreaterThan _ x | LowerThan _ x
  | Like _ x | GreaterThanOrEqual _ x | LowerThanOrEqual _ x => [x]
  | In _ xs => xs
  | And specs | Or specs => flat_map leafValues specs
  | Limit _ | Offset _ | OrderBy _ _ => []
  end.

Fixpoint valueCount (s : Specification V) : nat :=
  match s with
  | Equal _ _ | NotEqual _ _ | GreaterThan _ _ | LowerThan _ _
  | Like _ _ | GreaterThanOrEqual _ _ | LowerThanOrEqual _ _ => 1
  | In _ xs => length xs
  | And specs | Or specs => list_sum (map valueCount specs)
  | Limit _ | Offset _ | OrderBy _ _ => 0
  end.

(** The logical fields whose storage name is written into a condition
    fragment (an In without values writes none). *)
Fixpoint whereFields (s : Specification V) : list string :=
  match s with
  | Equal f _ | NotEqual f _ | GreaterThan f _ | LowerThan f _
  | Like f _ | GreaterThanOrEqual f _ | LowerThanOrEqual f _ => [f]
  | In f xs => match xs with [] => [] | _ => [f] end
  | And specs | Or specs => flat_map whereFields specs
  | Limit _ | Offset _ | OrderBy _ _ => []
  end.

(** The comparison kinds, their field and their operator. *)
Definition comparison (s : Specification V) : option (string * string) :=
  match s with
  | Equal f _ => Some (f, "=")
  | NotEqual f _ => Some (f, "<>")
  | GreaterThan f _ => Some (f, ">")
  | LowerThan f _ => Some (f, "<")
  | Like f _ => Some (f, "LIKE")
  | GreaterThanOrEqual f _ => Some (f, ">=")
  | LowerThanOrEqual f _ => Some (f, "<=")
  | _ => None
  end.

(** [mapField] as a function of the field table alone. *)
Definition storageName (fm : gmap string string) (f : string) : string :=
  default f (fm !! f).

(** A parenthesized group, absent when there is nothing to group. *)
Definition group (sep : string) (parts : list string) : list string :=
  match parts with
  | [] => []
  | _ => ["(" +:+ Join parts sep +:+ ")"]
  end.

(** The condition fragments of a tree, with generic placeholders. *)
Fixpoint fragments (fm : gmap string string) (s : Specification V)
    : list string :=
  match s with
  | Equal f _ => [storageName fm f +:+ " = ?"]
  | NotEqual f _ => [storageName fm f +:+ " <> ?"]
  | GreaterThan f _ => [storageName fm f +:+ " > ?"]
  | LowerThan f _ => [storageName fm f +:+ " < ?"]
  | Like f _ => [storageName fm f +:+ " LIKE ?"]
  | GreaterThanOrEqual f _ => [storageName fm f +:+ " >= ?"]
  | LowerThanOrEqual f _ => [storageName fm f +:+ " <= ?"]
  | In f xs =>
    match xs with
    | [] => ["1=0"]
    | _ => [storageName fm f +:+ " IN ("
              +:+ Join (replicate (length xs) "?") ", " +:+ ")"]
    end
  | And specs => group " AND " (flat_map (fragments fm) specs)
  | Or specs =>
    group " OR "
      (flat_map (fun s => group " AND " (fragments fm s)) specs)
  | Limit _ | Offset _ | OrderBy _ _ => []
  end.

(** The order clauses of a tree, in traversal order. *)
Fixpoint orderOf (fm : gmap string string) (s : Specification V)
    : list string :=
  match s with
  | OrderBy f d => [storageName fm f +:+ " " +:+ d]
  | And specs | Or specs => flat_map (orderOf fm) specs
  | _ => []
  end.

(** The positional marker [$k], and [n] consecutive indices from [k]. *)
Definition marker (k : Z) : string := "$" +:+ itoa k.
Definition indices (k : Z) (n : nat) : list Z :=
  map (fun i => k + Z.of_nat i) (seq 0 n).

(** The condition fragments of a tree when its value slots are numbered
    from [k] on, in the order of [leafValues]: the slot of the [i]-th
    value (from 0) carries the marker [$(k+i)]. *)
Fixpoint numbered (fm : gmap string string) (s : Specification V) (k : Z)
    : list string :=
  match s with
  | Equal f _ => [storageName fm f +:+ " = " +:+ marker k]
  | NotEqual f _ => [storageName fm f +:+ " <> " +:+ marker k]
  | GreaterThan f _ => [storageName fm f +:+ " > " +:+ marker k]
  | LowerThan f _ => [storageName fm f +:+ " < " +:+ marker k]
  | Like f _ => [storageName fm f +:+ " LIKE " +:+ marker k]
  | GreaterThanOrEqual f _ => [storageName fm f +:+ " >= " +:+ marker k]
  | LowerThanOrEqual f _ => [storageName fm f +:+ " <= " +:+ marker k]
  | In f xs =>
    match xs with
    | [] => ["1=0"]
    | _ => [storageName fm f +:+ " IN ("
              +:+ Join (map marker (indices k (length xs))) ", " +:+ ")"]
    end
  | And specs =>
    group " AND "
      (snd (fold_left
              (fun (st : Z * list string) s =>
                 (fst st + Z.of_nat (valueCount s),
                  snd st ++ numbered fm s (fst st)))
              specs (k, [])))
  | Or specs =>
    group " OR "
      (snd (fold_left
              (fun (st : Z * list string) s =>
                 (fst st + Z.of_nat (valueCount s),
                  snd st ++ group " AND " (numbered fm s (fst st))))
              specs (k, [])))
  | Limit _ | Offset _ | OrderBy _ _ => []
  end.

(** What one visit adds to the accumulator, leaving limit and offset
    aside. *)
Definition adds (s : Specification V) (v v' : Visitor V) : Prop :=
  conditions v' = conditions v ++ fragments (fieldMap v) s
  /\ args v' = args v ++ leafValues s
  /\ orderClauses v' = orderClauses v ++ orderOf (fieldMap v) s
  /\ fieldMap v' = fieldMap v.

(** Induction on trees, with the property available for the children of
    a composite. *)
Section Induction.
Variable P : Specification V -> Prop.
Hypothesis Hleaf :
  forall s, match s with And _ | Or _ => True | _ => P s end.
Hypothesis HAnd : forall specs, Forall P specs -> P (And specs).
Hypothesis HOr : forall specs, Forall P specs -> P (Or specs).

Fixpoint Specification_tree_ind (s : Specification V) : P s :=
  let children :=
    fix children (l : list (Specification V)) : Forall P l :=
      match l with
      | [] => List.Forall_nil P
      | x :: r => List.Forall_cons P x r (Specification_tree_ind x) (children r)
      end in
  match s as s0 return match s0 with And _ | Or _ => True | _ => P s0 end
                       -> P s0 with
  | And specs => fun _ => HAnd specs (children specs)
  | Or specs => fun _ => HOr specs (children specs)
  | _ => fun H => H
  end (Hleaf s).
End Induction.

End Readings.

(** The text the loop of [BuildQuery] writes for [s] when it starts with
    [argIndex = k]. *)
Definition number (k : Z) (s : string) : string :=
  Builder_String (fst (fold_left renumber_step (runes s) ([], k))).

(** Numbering a list of fragments one after the other. *)
Fixpoint numberList (k : Z) (frags : list string) : list string :=
  match frags with
  | [] => []
  | c :: rest => number k c :: numberList (k + Z.of_nat (countQ c)) rest
  end.

(** The positional markers among the pieces written to a builder. *)
Definition markers (b : list write) : list string :=
  flat_map (fun w => match w with WriteString s => [s] | WriteRune _ => [] end) b.

(** The pieces the loop body writes for the runes [rs] from index [k]. *)
Fixpoint writes (rs : list Z) (k : Z) : list write :=
  match rs with
  | [] => []
  | ch :: rest =>
    if ch =? 63 then WriteString ("$" +:+ itoa k) :: writes rest (k + 1)
    else WriteRune ch :: writes rest k
  end.

(** The number of [?] among runes. *)
Fixpoint countRuneQ (rs : list Z) : nat :=
  match rs with
  | [] => 0%nat
  | r :: rest => if r =? 63 then S (countRuneQ rest) else countRuneQ rest
  end.

(** A storage name is plain when it is valid UTF-8 and has no [?]. *)
Definition plain (s : string) : bool :=
  ValidString s && Nat.eqb (countQ s) 0.

(** The WHERE text [BuildQuery] assembles from an accumulator, and the
    positional markers written into it. *)
Definition whereClause {V : Type} (v : Visitor V) : string :=
  Builder_String (fst (renumber (Join (conditions v) " AND "))).

Definition whereMarkers {V : Type} (v : Visitor V) : list string :=
  markers (fst (renumber (Join (conditions v) " AND "))).

(** The four parts [BuildQuery] appends to the base query. *)
Definition whereTail {V : Type} (v : Visitor V) : string :=
  if 0 <? len (conditions v) then " WHERE " +:+ whereClause v else "".

Definition orderTail {V : Type} (v : Visitor V) : string :=
  if 0 <? len (orderClauses v)
  then " ORDER BY " +:+ Join (orderClauses v) ", " else "".

Definition limitTail {V : Type} (v : Visitor V) : string :=
  if 0 <? limit v then " LIMIT " +:+ itoa (limit v) else "".

Definition offsetTail {V : Type} (v : Visitor V) : string :=
  if 0 <? offset v then " OFFSET " +:+ itoa (offset v) else "".

(** The caller's side, as in the repository's usage example: a fresh
    visitor, the tree handed to it unless it is nil, then [BuildQuery]. *)
Definition compile {V : Type} (fm : gmap string string)
    (spec : option (Specification V)) (baseQuery : string)
    : string * list V :=
  let visitor := NewVisitor fm in
  let visitor :=
    match spec with
    | Some spec => Accept spec visitor
    | None => visitor
    end in
  BuildQuery visitor baseQuery.

(** Every fragment and order clause written for the logical field [f]
    into the accumulator [v] uses [name] as the field's name. *)
Definition writesName {V : Type} (v : Visitor V) (f name : string) : Prop :=
  (forall (s : Specification V) (op : string),
      comparison s = Some (f, op) ->
      conditions (Accept s v) = conditions v ++ [name +:+ " " +:+ op +:+ " ?"])
  /\ (forall (x : V) (xs : list V),
         conditions (Accept (In f (x :: xs)) v)
         = conditions v
             ++ [name +:+ " IN ("
                   +:+ Join (replicate (S (length xs)) "?") ", " +:+ ")"])
  /\ (forall d : string,
         orderClauses (Accept (OrderBy f d) v)
         = orderClauses v ++ [name +:+ " " +:+ d]).

(** The number of [?] bytes in a list of fragments. *)
Definition sumQ (frags : list string) : nat := list_sum (map countQ frags).

(** A name without [?]. *)
Definition noQ (s : string) : bool := Nat.eqb (countQ s) 0.

(** [p] holds of every storage name the tree writes into a condition. *)
Definition fieldsAll {V : Type} (p : string -> bool)
    (fm : gmap string string) (s : Specification V) : bool :=
  forallb (fun f => p (storageName fm f)) (whereFields s).

(** The first [n] bytes of [s] are continuation bytes. *)
Fixpoint contPrefix (n : nat) (s : string) : bool :=
  match n with
  | O => true
  | S n =>
    match s with
    | String c t => isCont c && contPrefix n t
    | EmptyString => false
    end
  end.

(** [s[n:]]. *)
Fixpoint suffix (n : nat) (s : string) : string :=
  match n, s with
  | O, _ => s
  | S n, String _ t => suffix n t
  | S _, EmptyString => EmptyString
  end.

End Tree.

(** ** The shape of a tree

    What a tree is made of, read off its nodes: whether it holds a leaf
    that writes a condition, a [Limit] or an [Offset] node, how many [?]
    its storage names carry, and the same tree over other values. *)

Module Shape.
Import Go specifications postgres Tree.

Section Shape.
Context {V : Type}.

(** The tree holds a comparison, Like or In leaf. *)
Fixpoint hasCondition (s : Specification V) : bool :=
  match s with
  | And specs | Or specs => existsb hasCondition specs
  | Limit _ | Offset _ | OrderBy _ _ => false
  | _ => true
  end.

(** The tree holds a [Limit] node, an [Offset] node. *)
Fixpoint hasLimit (s : Specification V) : bool :=
  match s with
  | Limit _ => true
  | And specs | Or specs => existsb hasLimit specs
  | _ => false
  end.

Fixpoint hasOffset (s : Specification V) : bool :=
  match s with
  | Offset _ => true
  | And specs | Or specs => existsb hasOffset specs
  | _ => false
  end.

(** The number of [?] bytes in the storage names the tree writes into its
    conditions. *)
Definition nameQ (fm : gmap string string) (s : Specification V) : nat :=
  list_sum (map (fun f => countQ (storageName fm f)) (whereFields s)).

End Shape.

(** The last strictly positive number of [l], or [d] when there is none. *)
Definition lastPositive (l : list Z) (d : Z) : Z :=
  fold_left (fun c x => if 0 <? x then x else c) l d.

(** The same tree with every value payload replaced by its image. *)
Fixpoint mapValues {V W : Type} (g : V -> W) (s : Specification V)
    : Specification W :=
  match s with
  | Equal f x => Equal f (g x)
  | NotEqual f x => NotEqual f (g x)
  | In f xs => In f (map g xs)
  | And specs => And (map (mapValues g) specs)
  | Or specs => Or (map (mapValues g) specs)
  | Limit n => Limit n
  | OrderBy f d => OrderBy f d
  | GreaterThan f x => GreaterThan f (g x)
  | LowerThan f x => LowerThan f (g x)
  | Like f x => Like f (g x)
  | GreaterThanOrEqual f x => GreaterThanOrEqual f (g x)
  | LowerThanOrEqual f x => LowerThanOrEqual f (g x)
  | Offset n => Offset n
  end.

(** Two accumulators that differ only by their arguments, those of the
    second being the images of those of the first. *)
Definition sameText {V W : Type} (g : V -> W) (v : Visitor V)
    (w : Visitor W) : Prop :=
  conditions w = conditions v
  /\ args w = map g (args v)
  /\ fieldMap w = fieldMap v
  /\ orderClauses w = orderClauses v
  /\ limit w = limit v
  /\ offset w = offset v.

End Shape.

(** * Properties *)

(** ** Strings, bytes and runes *)

Import Go specifications postgres Tree.

Lemma sapp_cons (x : ascii) (a b : string) :
  String x a +:+ b = String x (a +:+ b).
Proof. reflexivity. Qed.

Lemma sapp_nil_l (a : string) : "" +:+ a = a.
Proof. reflexivity. Qed.

Lemma sapp_assoc (a b c : string) : (a +:+ b) +:+ c = a +:+ (b +:+ c).
Proof.
  induction a as [|x a IH]; [reflexivity |].
  now rewrite !sapp_cons, IH.
Qed.

Lemma sapp_nil_r (a : string) : a +:+ "" = a.
Proof.
  induction a as [|x a IH]; [reflexivity |].
  now rewrite sapp_cons, IH.
Qed.

Lemma countQ_app (a b : string) : countQ (a +:+ b) = (countQ a + countQ b)%nat.
Proof.
  induction a as [|x a IH]; [reflexivity |].
  rewrite sapp_cons. simpl. rewrite IH. now destruct (byteZ x =? 63).
Qed.

Lemma byteZ_range (c : ascii) : 0 <= byteZ c < 256.
Proof.
  unfold byteZ. pose proof (N_ascii_bounded c) as H. lia.
Qed.

Lemma chr_byteZ (c : ascii) : chr (byteZ c) = c.
Proof.
  unfold chr, byteZ. rewrite N2Z.id. apply ascii_N_embedding.
Qed.

Lemma isCont_range (c : ascii) : isCont c = true <-> 128 <= byteZ c <= 191.
Proof.
  unfold isCont, locb, hicb. rewrite andb_true_iff, Z.leb_le, Z.leb_le.
  reflexivity.
Qed.

(** Case analysis on the tests of the decoder. *)
Ltac split_if :=
  match goal with
  | |- context [if ?b then _ else _] => destruct b eqn:?
  end.

(** A decoded rune is never [?], its width is positive, and the bytes it
    spans after the first are continuation bytes. *)
Lemma decoderune_cont (c : ascii) (t : string) :
  contPrefix (snd (decoderune (String c t)) - 1) t = true
  /\ fst (decoderune (String c t)) <> 63
  /\ (1 <= snd (decoderune (String c t)))%nat.
Proof.
  unfold decoderune, RuneError, rune1Max, rune2Max, rune3Max.
  destruct t as [|c1 [|c2 [|c3 t]]]; simpl;
    repeat split_if; simpl;
    repeat match goal with
           | H : (_ && _) = true |- _ => apply andb_prop in H; destruct H
           | H : (_ <? _) = true |- _ => apply Z.ltb_lt in H
           end;
    repeat split;
    repeat match goal with
           | H : ?b = true |- context [?b] => rewrite H
           end;
    simpl; try reflexivity; try lia.
Qed.

(** The loop sees exactly as many [?] runes as the text has [?] bytes. *)
Lemma rangeString_countQ (s : string) :
  forall skip, contPrefix skip s = true ->
    countRuneQ (rangeString s skip) = countQ s.
Proof.
  induction s as [|c t IH]; intros skip Hc; [reflexivity |].
  destruct skip as [|n]; cbn [rangeString countQ].
  - destruct (byteZ c <? RuneSelf) eqn:Hascii.
    + cbn [countRuneQ]. rewrite (IH 0%nat eq_refl). reflexivity.
    + apply Z.ltb_ge in Hascii. unfold RuneSelf in Hascii.
      destruct (decoderune_cont c t) as (Hp & Hr & _).
      destruct (decoderune (String c t)) as [r w]; cbn [fst snd] in *.
      cbn [countRuneQ]. rewrite (IH _ Hp).
      destruct (r =? 63) eqn:E; [apply Z.eqb_eq in E; contradiction |].
      destruct (byteZ c =? 63) eqn:E'; [apply Z.eqb_eq in E'; lia |].
      reflexivity.
  - cbn [contPrefix] in Hc. apply andb_prop in Hc. destruct Hc as [Hc Hn].
    apply isCont_range in Hc.
    destruct (byteZ c =? 63) eqn:E'; [apply Z.eqb_eq in E'; lia |].
    apply IH, Hn.
Qed.

Lemma runes_countQ (s : string) : countRuneQ (runes s) = countQ s.
Proof. apply rangeString_countQ. reflexivity. Qed.

(** *** Bit operations of the coder as arithmetic *)

Lemma lor_add (u b n : Z) :
  0 <= n -> u mod 2 ^ n = 0 -> 0 <= b < 2 ^ n -> Z.lor u b = u + b.
Proof.
  intros Hn Hu Hb.
  assert (Hland : Z.land u b = 0).
  { apply Z.bits_inj'. intros i Hi. rewrite Z.land_spec, Z.bits_0.
    destruct (Z.lt_ge_cases i n) as [Hlt | Hge].
    - pose proof (Z.div_mod u (2 ^ n)) as E.
      rewrite Hu, Z.add_0_r, Z.mul_comm in E.
      rewrite E by lia.
      rewrite Z.mul_pow2_bits_low by lia. reflexivity.
    - rewrite <- (Z.mod_small b (2 ^ n)) by lia.
      rewrite Z.mod_pow2_bits_high by lia. apply andb_false_r. }
  rewrite <- Z.lxor_lor by exact Hland.
  symmetry. apply Z.add_nocarry_lxor. exact Hland.
Qed.

Lemma land_mask (x n m : Z) :
  0 <= n -> m = 2 ^ n - 1 -> Z.land x m = x mod 2 ^ n.
Proof.
  intros Hn ->.
  replace (2 ^ n - 1) with (Z.ones n) by (rewrite Z.ones_equiv; lia).
  apply Z.land_ones. exact Hn.
Qed.

Ltac pow2 :=
  change (2 ^ 3) with 8 in *; change (2 ^ 4) with 16 in *;
  change (2 ^ 5) with 32 in *; change (2 ^ 6) with 64 in *;
  change (2 ^ 12) with 4096 in *; change (2 ^ 18) with 262144 in *.

Ltac euclid := pow2; try lia; Z.to_euclidean_division_equations; lia.

Lemma dec2 (b0 b1 : Z) :
  192 <= b0 < 224 -> 128 <= b1 <= 191 ->
  Z.lor (Z.shiftl (Z.land b0 31) 6) (Z.land b1 63)
  = (b0 - 192) * 64 + (b1 - 128).
Proof.
  intros.
  rewrite (land_mask b0 5 31), (land_mask b1 6 63) by (try lia; reflexivity).
  rewrite Z.shiftl_mul_pow2 by lia.
  rewrite (lor_add _ _ 6); euclid.
Qed.

Lemma dec3 (b0 b1 b2 : Z) :
  224 <= b0 < 240 -> 128 <= b1 <= 191 -> 128 <= b2 <= 191 ->
  Z.lor (Z.lor (Z.shiftl (Z.land b0 15) 12) (Z.shiftl (Z.land b1 63) 6))
        (Z.land b2 63)
  = (b0 - 224) * 4096 + (b1 - 128) * 64 + (b2 - 128).
Proof.
  intros.
  rewrite (land_mask b0 4 15), (land_mask b1 6 63), (land_mask b2 6 63)
    by (try lia; reflexivity).
  rewrite !Z.shiftl_mul_pow2 by lia. pow2.
  rewrite (lor_add (b0 mod 16 * 4096) (b1 mod 64 * 64) 12);
    [rewrite (lor_add _ (b2 mod 64) 6) | ..]; euclid.
Qed.

Lemma dec4 (b0 b1 b2 b3 : Z) :
  240 <= b0 < 248 -> 128 <= b1 <= 191 -> 128 <= b2 <= 191 ->
  128 <= b3 <= 191 ->
  Z.lor (Z.lor (Z.lor (Z.shiftl (Z.land b0 7) 18)
                      (Z.shiftl (Z.land b1 63) 12))
               (Z.shiftl (Z.land b2 63) 6))
        (Z.land b3 63)
  = (b0 - 240) * 262144 + (b1 - 128) * 4096 + (b2 - 128) * 64 + (b3 - 128).
Proof.
  intros.
  rewrite (land_mask b0 3 7), (land_mask b1 6 63), (land_mask b2 6 63),
    (land_mask b3 6 63) by (try lia; reflexivity).
  rewrite !Z.shiftl_mul_pow2 by lia. pow2.
  rewrite (lor_add (b0 mod 8 * 262144) (b1 mod 64 * 4096) 18);
    [rewrite (lor_add _ (b2 mod 64 * 64) 12);
       [rewrite (lor_add _ (b3 mod 64) 6) | ..] | ..]; euclid.
Qed.

Lemma enc_lead (t x n : Z) :
  0 <= n -> t mod 2 ^ n = 0 -> 0 <= x < 2 ^ n -> 2 ^ n <= 256 ->
  Z.lor t (byte x) = t + x.
Proof.
  intros. unfold byte. rewrite Z.mod_small by lia. apply (lor_add _ _ n); lia.
Qed.

Lemma enc_cont (x : Z) :
  0 <= x -> Z.lor tx (Z.land (byte x) maskx) = 128 + x mod 64.
Proof.
  intros. unfold byte, tx, maskx.
  rewrite (land_mask _ 6 63) by (try lia; reflexivity).
  rewrite (lor_add _ _ 6); euclid.
Qed.

(** Turning the boolean tests of the coder into arithmetic facts. *)
Ltac tests :=
  unfold t2, t3, t4, t5, locb, hicb, rune1Max, rune2Max, rune3Max, MaxRune,
    surrogateMin, surrogateMax, RuneSelf in *;
  repeat match goal with
         | H : _ = true |- _ =>
           rewrite ?andb_true_iff, ?orb_true_iff, ?negb_true_iff,
             ?andb_false_iff, ?Z.leb_le, ?Z.ltb_lt, ?Z.leb_gt, ?Z.ltb_ge,
             ?isCont_range in H;
           revert H
         | H : _ = false |- _ =>
           rewrite ?andb_false_iff, ?orb_false_iff, ?negb_false_iff,
             ?andb_true_iff, ?Z.leb_le, ?Z.ltb_lt, ?Z.leb_gt, ?Z.ltb_ge in H;
           revert H
         end;
  intros.

Ltac decide_tests :=
  repeat match goal with
         | |- context [if ?b then _ else _] =>
           let E := fresh "E" in
           destruct b eqn:E; [try (exfalso; tests; lia) | try (exfalso; tests; lia)]
         end.

(** *** Decoding and encoding *)

Lemma encodeRune_ascii (c : ascii) :
  byteZ c < 128 -> encodeRune (byteZ c) = String c "".
Proof.
  intros H. pose proof (byteZ_range c). unfold encodeRune. cbv zeta.
  decide_tests. unfold byte. rewrite Z.mod_small by lia.
  now rewrite chr_byteZ.
Qed.

Lemma encodeRune2 (b0 b1 : Z) :
  192 <= b0 < 224 -> 128 <= b1 <= 191 ->
  127 < (b0 - 192) * 64 + (b1 - 128) ->
  encodeRune ((b0 - 192) * 64 + (b1 - 128))
  = String (chr b0) (String (chr b1) "").
Proof.
  intros. unfold encodeRune. cbv zeta. decide_tests.
  f_equal; [| f_equal]; f_equal.
  - rewrite Z.shiftr_div_pow2 by lia.
    rewrite (enc_lead _ _ 5); unfold t2; euclid.
  - rewrite enc_cont by lia. euclid.
Qed.

Lemma encodeRune3 (b0 b1 b2 : Z) :
  224 <= b0 < 240 -> 128 <= b1 <= 191 -> 128 <= b2 <= 191 ->
  let r := (b0 - 224) * 4096 + (b1 - 128) * 64 + (b2 - 128) in
  2047 < r -> ~ (55296 <= r <= 57343) ->
  encodeRune r = String (chr b0) (String (chr b1) (String (chr b2) "")).
Proof.
  intros ? ? ? r ? ?. subst r. unfold encodeRune. cbv zeta. decide_tests.
  f_equal; [| f_equal; [| f_equal]]; f_equal.
  - rewrite Z.shiftr_div_pow2 by lia.
    rewrite (enc_lead _ _ 4); unfold t3; euclid.
  - rewrite Z.shiftr_div_pow2 by lia. rewrite enc_cont; euclid.
  - rewrite enc_cont by lia. euclid.
Qed.

Lemma encodeRune4 (b0 b1 b2 b3 : Z) :
  240 <= b0 < 248 -> 128 <= b1 <= 191 -> 128 <= b2 <= 191 ->
  128 <= b3 <= 191 ->
  let r := (b0 - 240) * 262144 + (b1 - 128) * 4096 + (b2 - 128) * 64
           + (b3 - 128) in
  65535 < r <= 1114111 ->
  encodeRune r
  = String (chr b0) (String (chr b1) (String (chr b2) (String (chr b3) ""))).
Proof.
  intros ? ? ? ? r ?. subst r. unfold encodeRune. cbv zeta. decide_tests.
  f_equal; [| f_equal; [| f_equal; [| f_equal]]]; f_equal.
  - rewrite Z.shiftr_div_pow2 by lia.
    rewrite (enc_lead _ _ 3); unfold t4; euclid.
  - rewrite Z.shiftr_div_pow2 by lia. rewrite enc_cont; euclid.
  - rewrite Z.shiftr_div_pow2 by lia. rewrite enc_cont; euclid.
  - rewrite enc_cont by lia. euclid.
Qed.

(** A rune decoded from a well-formed encoding is encoded back to the
    bytes it was read from. *)
Lemma decoderune_roundtrip (c : ascii) (t : string) :
  snd (decoderune (String c t)) <> 1%nat ->
  String c t
  = encodeRune (fst (decoderune (String c t)))
      +:+ suffix (snd (decoderune (String c t)) - 1) t.
Proof.
  unfold decoderune.
  destruct t as [|c1 [|c2 [|c3 t]]]; cbv zeta;
    repeat split_if; cbn [fst snd]; intros Hw; try congruence;
    cbn [suffix Nat.sub]; tests.
  all: try (rewrite dec2 in * by lia; rewrite encodeRune2 by lia;
            now rewrite !chr_byteZ).
  all: try (rewrite dec3 in * by lia; rewrite encodeRune3 by lia;
            now rewrite !chr_byteZ).
  all: try (rewrite dec4 in * by lia; rewrite encodeRune4 by lia;
            now rewrite !chr_byteZ).
Qed.

(** Decoding a well-formed encoding does not depend on what follows it. *)
Lemma decoderune_app (c : ascii) (t b : string) :
  snd (decoderune (String c t)) <> 1%nat ->
  decoderune (String c (t +:+ b)) = decoderune (String c t).
Proof.
  unfold decoderune.
  destruct t as [|c1 [|c2 [|c3 t]]]; cbv zeta; rewrite ?sapp_cons;
    repeat split_if; cbn [fst snd]; intros Hw; congruence.
Qed.

(** *** Valid UTF-8 text *)

Lemma rangeString_app (a b : string) :
  forall skip, validFrom a skip = true ->
    rangeString (a +:+ b) skip = rangeString a skip ++ rangeString b 0.
Proof.
  induction a as [|c t IH]; intros skip Hv.
  - destruct skip; [reflexivity | discriminate].
  - rewrite sapp_cons. destruct skip as [|n]; cbn [rangeString validFrom] in *.
    + destruct (byteZ c <? RuneSelf).
      * now rewrite (IH _ Hv).
      * destruct (decoderune (String c t)) as [r w] eqn:E.
        apply andb_prop in Hv. destruct Hv as [Hw Hv].
        apply negb_true_iff, Nat.eqb_neq in Hw.
        rewrite decoderune_app by (rewrite E; exact Hw).
        rewrite E. now rewrite (IH _ Hv).
    + now apply IH.
Qed.

Lemma validFrom_app (a b : string) :
  forall skip, validFrom a skip = true ->
    validFrom (a +:+ b) skip = validFrom b 0.
Proof.
  induction a as [|c t IH]; intros skip Hv.
  - destruct skip; [reflexivity | discriminate].
  - rewrite sapp_cons. destruct skip as [|n]; cbn [validFrom] in *.
    + destruct (byteZ c <? RuneSelf).
      * now apply IH.
      * destruct (decoderune (String c t)) as [r w] eqn:E.
        apply andb_prop in Hv. destruct Hv as [Hw Hv].
        assert (Hw' := Hw). apply negb_true_iff, Nat.eqb_neq in Hw'.
        rewrite decoderune_app by (rewrite E; exact Hw').
        rewrite E, Hw. now apply IH.
    + now apply IH.
Qed.

Lemma ValidString_app (a b : string) :
  ValidString a = true -> ValidString b = true -> ValidString (a +:+ b) = true.
Proof.
  unfold ValidString. intros Ha Hb. now rewrite validFrom_app.
Qed.

(** Writing back the runes of valid text gives the text again. *)
Lemma copy_valid (a : string) :
  forall skip, validFrom a skip = true ->
    Builder_String (map WriteRune (rangeString a skip)) = suffix skip a.
Proof.
  induction a as [|c t IH]; intros skip Hv.
  - destruct skip; [reflexivity | discriminate].
  - destruct skip as [|n]; cbn [rangeString validFrom suffix] in *.
    + destruct (byteZ c <? RuneSelf) eqn:Hc.
      * cbn [map Builder_String fold_right written].
        change (fold_right _ _ ?l) with (Builder_String l).
        rewrite (IH _ Hv). apply Z.ltb_lt in Hc.
        now rewrite encodeRune_ascii by exact Hc.
      * pose proof (decoderune_roundtrip c t) as R.
        destruct (decoderune (String c t)) as [r w] eqn:E.
        apply andb_prop in Hv. destruct Hv as [Hw Hv].
        apply negb_true_iff, Nat.eqb_neq in Hw.
        cbn [map Builder_String fold_right written fst snd] in *.
        change (fold_right _ _ ?l) with (Builder_String l).
        rewrite (IH _ Hv). symmetry. exact (R Hw).
    + now apply IH.
Qed.

(** ** The renumbering loop of [BuildQuery] *)

Lemma Builder_String_app (b1 b2 : list write) :
  Builder_String (b1 ++ b2) = Builder_String b1 +:+ Builder_String b2.
Proof.
  induction b1 as [|w b1 IH]; [reflexivity |].
  cbn [app Builder_String fold_right].
  change (fold_right _ _ ?l) with (Builder_String l).
  now rewrite IH, sapp_assoc.
Qed.

Lemma renumber_loop (rs : list Z) :
  forall (b : list write) (k : Z),
    fold_left renumber_step rs (b, k)
    = (b ++ writes rs k, k + Z.of_nat (countRuneQ rs)).
Proof.
  induction rs as [|r rs IH]; intros b k; cbn [fold_left writes countRuneQ].
  - now rewrite app_nil_r, Z.add_0_r.
  - unfold renumber_step at 2. destruct (r =? 63); rewrite IH, <- app_assoc;
      cbn [app]; f_equal; lia.
Qed.

Lemma writes_app (r1 r2 : list Z) :
  forall k, writes (r1 ++ r2) k
            = writes r1 k ++ writes r2 (k + Z.of_nat (countRuneQ r1)).
Proof.
  induction r1 as [|r r1 IH]; intros k; cbn [app writes countRuneQ].
  - now rewrite Z.add_0_r.
  - destruct (r =? 63); rewrite IH; cbn [app]; do 3 f_equal; lia.
Qed.

Lemma writes_plain (rs : list Z) (k : Z) :
  countRuneQ rs = 0%nat -> writes rs k = map WriteRune rs.
Proof.
  induction rs as [|r rs IH]; [reflexivity |].
  cbn [countRuneQ writes map]. destruct (r =? 63); [discriminate |].
  intros H. now rewrite IH.
Qed.

(** The markers the loop writes are [$k], [$(k+1)], ... one per [?]. *)
Lemma markers_writes (rs : list Z) :
  forall k, markers (writes rs k) = map marker (indices k (countRuneQ rs)).
Proof.
  unfold indices.
  induction rs as [|r rs IH]; intros k; [reflexivity |].
  cbn [writes countRuneQ]. destruct (r =? 63).
  - cbn [markers flat_map app seq map]. f_equal.
    + unfold marker. now rewrite Z.add_0_r.
    + change (flat_map _ ?l) with (markers l). rewrite IH.
      rewrite <- (seq_shift (countRuneQ rs) 0), !map_map.
      apply map_ext. intros i. f_equal. lia.
  - cbn [markers flat_map app]. apply IH.
Qed.

Lemma renumber_eq (s : string) :
  renumber s = (writes (runes s) 1, 1 + Z.of_nat (countQ s)).
Proof.
  unfold renumber. rewrite renumber_loop, runes_countQ. reflexivity.
Qed.

Lemma number_eq (k : Z) (s : string) :
  number k s = Builder_String (writes (runes s) k).
Proof. unfold number. now rewrite renumber_loop. Qed.

(** Numbering runs through a concatenation when its left part is valid. *)
Lemma number_app (k : Z) (a b : string) :
  ValidString a = true ->
  number k (a +:+ b) = number k a +:+ number (k + Z.of_nat (countQ a)) b.
Proof.
  intros Ha. rewrite !number_eq. unfold runes.
  rewrite rangeString_app by exact Ha.
  rewrite writes_app, Builder_String_app.
  now rewrite (rangeString_countQ a 0).
Qed.

Lemma plain_spec (s : string) :
  plain s = true <-> ValidString s = true /\ countQ s = 0%nat.
Proof.
  unfold plain. now rewrite andb_true_iff, Nat.eqb_eq.
Qed.

(** Plain text is written back unchanged. *)
Lemma number_plain (k : Z) (s : string) : plain s = true -> number k s = s.
Proof.
  intros [Hv Hq]%plain_spec. rewrite number_eq.
  rewrite writes_plain by (now rewrite runes_countQ).
  exact (copy_valid s 0 Hv).
Qed.

Lemma number_placeholder (k : Z) : number k "?" = marker k.
Proof.
  rewrite number_eq. change (runes "?") with [63].
  cbn [writes]. change (63 =? 63) with true.
  cbn [Builder_String fold_right written]. apply sapp_nil_r.
Qed.

Lemma number_plain_app (k : Z) (a b : string) :
  plain a = true -> number k (a +:+ b) = a +:+ number k b.
Proof.
  intros Ha. assert (Hp := Ha). apply plain_spec in Hp. destruct Hp as [Hv Hq].
  rewrite number_app by exact Hv. rewrite number_plain by exact Ha.
  now rewrite Hq, Z.add_0_r.
Qed.

(** ** The visitor *)

(** Induction on a tree: the leaves, then [And] and [Or] with the
    property for their children. *)
Ltac tree_induction s specs IH :=
  pattern s; apply Specification_tree_ind; clear s;
  [intros s | intros specs IH | intros specs IH].

Section VisitorFacts.
Context {V : Type}.
Implicit Types (v : Visitor V) (s : Specification V).

Lemma len_pos {A : Type} (l : list A) :
  (0 <? len l) = match l with [] => false | _ => true end.
Proof. destruct l; reflexivity. Qed.

Lemma len_zero {A : Type} (l : list A) :
  (len l =? 0) = match l with [] => true | _ => false end.
Proof. destruct l; reflexivity. Qed.

(** Handing a node to the visitor runs the traversal. *)
Lemma Accept_walk s v : Accept s v = walk s v.
Proof. destruct s; reflexivity. Qed.

Lemma VisitIn_loop_prefix (values : list V) (m : nat) :
  forall (qs : list string) (a : list V),
    (m <= length values)%nat -> (m <= length qs)%nat ->
    fold_left (VisitIn_step values) (seq 0 m) (qs, a)
    = (replicate m "?" ++ drop m qs, a ++ take m values).
Proof.
  induction m as [|m IH]; intros qs a Hv Hq.
  - cbn. now rewrite take_0, app_nil_r, drop_0.
  - rewrite seq_S, fold_left_app, IH by lia. cbn [fold_left VisitIn_step Nat.add].
    destruct (lookup_lt_is_Some_2 values m ltac:(lia)) as [x Hx].
    destruct (lookup_lt_is_Some_2 qs m ltac:(lia)) as [q Hq'].
    rewrite Hx. f_equal.
    + rewrite insert_app_r_alt by (rewrite length_replicate; lia).
      rewrite length_replicate, Nat.sub_diag.
      rewrite (drop_S _ _ _ Hq'). cbn.
      change (replicate m "?" ++ "?" :: drop (S m) qs
              = replicate (S m) "?" ++ drop (S m) qs).
      rewrite replicate_S_end, <- app_assoc. reflexivity.
    + rewrite (take_S_r _ _ _ Hx), app_assoc. reflexivity.
Qed.

Lemma VisitIn_loop_spec (values : list V) (a : list V) :
  VisitIn_loop values (replicate (length values) "") a
  = (replicate (length values) "?", a ++ values).
Proof.
  unfold VisitIn_loop. rewrite VisitIn_loop_prefix.
  - rewrite drop_ge by (rewrite length_replicate; lia).
    now rewrite app_nil_r, firstn_all.
  - lia.
  - rewrite length_replicate. lia.
Qed.

Lemma group_nil (sep : string) (parts : list string) :
  group sep parts = [] <-> parts = [].
Proof. destruct parts; cbn; split; congruence. Qed.

Lemma flat_map_nil {A B : Type} (f : A -> list B) (l : list A) :
  flat_map f l = [] <-> Forall (fun x => f x = []) l.
Proof.
  induction l as [|x l IH]; cbn.
  - split; [constructor | reflexivity].
  - split.
    + intros [H1 H2]%app_eq_nil. constructor; [exact H1 | now apply IH].
    + intros H. inversion H as [|? ? H1 H2]; subst.
      rewrite H1. now apply IH.
Qed.

(** A tree that adds no condition fragment holds no value. *)
Lemma fragments_nil_values (fm : gmap string string) s :
  fragments fm s = [] -> leafValues s = [].
Proof.
  tree_induction s specs IH.
  - destruct s; try exact I; cbn; try discriminate; try reflexivity.
    destruct values; discriminate.
  - cbn [fragments leafValues]. intros H%group_nil.
    apply flat_map_nil. apply flat_map_nil in H.
    induction IH as [|x l Hx _ IHl]; [constructor |].
    inversion H; subst. constructor; auto.
  - cbn [fragments leafValues]. intros H%group_nil.
    apply flat_map_nil. apply flat_map_nil in H.
    induction IH as [|x l Hx _ IHl]; [constructor |].
    inversion H as [|? ? H1 H2]; subst. apply group_nil in H1.
    constructor; auto.
Qed.

(** *** [VisitAnd] and [VisitOr], field by field *)

Lemma VisitAnd_fields (accept : Specification V -> Visitor V -> Visitor V)
    (specs : list (Specification V)) v :
  let sub := fold_left (fun sub s => accept s sub) specs
                       (NewVisitor (fieldMap v)) in
  let v' := VisitAnd accept specs v in
  conditions v' = conditions v ++ group " AND " (conditions sub)
  /\ args v' = args v ++ match conditions sub with [] => [] | _ => args sub end
  /\ orderClauses v' = orderClauses v ++ orderClauses sub
  /\ fieldMap v' = fieldMap v
  /\ limit v' = (if 0 <? limit sub then limit sub else limit v)
  /\ offset v' = (if 0 <? offset sub then offset sub else offset v).
Proof.
  cbv zeta. unfold VisitAnd. cbv zeta. rewrite len_pos.
  destruct (conditions (fold_left _ specs _)),
    (0 <? limit (fold_left _ specs _)), (0 <? offset (fold_left _ specs _));
    cbn; rewrite ?app_nil_r; repeat split; reflexivity.
Qed.

Lemma VisitOr_fields (accept : Specification V -> Visitor V -> Visitor V)
    (specs : list (Specification V)) v :
  let st := fold_left (VisitOr_step accept v) specs
                      (NewVisitor (fieldMap v), []) in
  let v' := VisitOr accept specs v in
  conditions v' = conditions v ++ group " OR " (snd st)
  /\ args v' = args v ++ match snd st with [] => [] | _ => args (fst st) end
  /\ orderClauses v' = orderClauses v ++ orderClauses (fst st)
  /\ fieldMap v' = fieldMap v
  /\ limit v' = (if 0 <? limit (fst st) then limit (fst st) else limit v)
  /\ offset v' = (if 0 <? offset (fst st) then offset (fst st) else offset v).
Proof.
  cbv zeta. unfold VisitOr.
  destruct (fold_left _ specs _) as [sub orParts]. cbv zeta. rewrite len_pos.
  cbn [fst snd].
  destruct orParts, (0 <? limit sub), (0 <? offset sub);
    cbn; rewrite ?app_nil_r; repeat split; reflexivity.
Qed.

(** One iteration of the loop of [VisitOr], field by field. *)
Lemma VisitOr_step_fields (accept : Specification V -> Visitor V -> Visitor V)
    v (sub : Visitor V) (orParts : list string) s :
  let temp := accept s (NewVisitor (fieldMap v)) in
  let st := VisitOr_step accept v (sub, orParts) s in
  snd st = orParts ++ group " AND " (conditions temp)
  /\ args (fst st)
     = args sub ++ match conditions temp with [] => [] | _ => args temp end
  /\ orderClauses (fst st) = orderClauses sub ++ orderClauses temp
  /\ fieldMap (fst st) = fieldMap sub
  /\ limit (fst st) = (if 0 <? limit temp then limit temp else limit sub)
  /\ offset (fst st) = (if 0 <? offset temp then offset temp else offset sub).
Proof.
  cbv zeta. unfold VisitOr_step. cbv zeta. rewrite len_pos.
  destruct (conditions (accept s _)), (0 <? limit (accept s _)),
    (0 <? offset (accept s _));
    cbn; rewrite ?app_nil_r; repeat split; reflexivity.
Qed.

(** *** What a traversal adds *)

Lemma adds_children (specs : list (Specification V)) :
  Forall (fun s => forall v, adds s v (walk s v)) specs ->
  forall v0,
    let sub := fold_left (fun sub s => walk s sub) specs v0 in
    conditions sub = conditions v0 ++ flat_map (fragments (fieldMap v0)) specs
    /\ args sub = args v0 ++ flat_map leafValues specs
    /\ orderClauses sub
       = orderClauses v0 ++ flat_map (orderOf (fieldMap v0)) specs
    /\ fieldMap sub = fieldMap v0.
Proof.
  induction 1 as [|s specs Hs _ IH]; intros v0; cbn [fold_left flat_map].
  - rewrite !app_nil_r. repeat split; reflexivity.
  - destruct (Hs v0) as (Hc & Ha & Ho & Hf).
    destruct (IH (walk s v0)) as (Hc' & Ha' & Ho' & Hf').
    cbv zeta. rewrite Hc', Ha', Ho', Hf', Hc, Ha, Ho, Hf, !app_assoc.
    repeat split; reflexivity.
Qed.

Lemma adds_branches (specs : list (Specification V)) v :
  Forall (fun s => forall v, adds s v (walk s v)) specs ->
  forall (sub : Visitor V) (orParts : list string),
    let st := fold_left (VisitOr_step walk v) specs (sub, orParts) in
    snd st
    = orParts
        ++ flat_map (fun s => group " AND " (fragments (fieldMap v) s)) specs
    /\ args (fst st) = args sub ++ flat_map leafValues specs
    /\ orderClauses (fst st)
       = orderClauses sub ++ flat_map (orderOf (fieldMap v)) specs.
Proof.
  induction 1 as [|s specs Hs _ IH]; intros sub orParts;
    cbn [fold_left flat_map].
  - rewrite !app_nil_r. repeat split; reflexivity.
  - destruct (Hs (NewVisitor (fieldMap v))) as (Hc & Ha & Ho & Hf).
    cbn [NewVisitor conditions args orderClauses fieldMap app] in Hc, Ha, Ho.
    pose proof (VisitOr_step_fields walk v sub orParts s) as F.
    cbv zeta in F. destruct F as (Fp & Fa & Fo & _).
    destruct (VisitOr_step walk v (sub, orParts) s) as [sub' parts'].
    cbn [fst snd] in *.
    destruct (IH sub' parts') as (Hp' & Ha' & Ho').
    cbv zeta. rewrite Hp', Ha', Ho', Fp, Fa, Fo, Hc, Ho, !app_assoc.
    repeat split; try reflexivity.
    f_equal. f_equal.
    destruct (fragments (fieldMap v) s) eqn:E; [| exact Ha].
    symmetry. exact (fragments_nil_values _ _ E).
Qed.

(** Visiting a tree appends its fragments, its values and its order
    clauses to the accumulator, and leaves the field table alone. *)
Lemma walk_adds s : forall v, adds s v (walk s v).
Proof.
  tree_induction s specs IH.
  - destruct s; try exact I; intros v; unfold adds; cbn [walk];
      try (cbn; rewrite ?app_nil_r; repeat split; reflexivity).
    unfold VisitIn. cbv zeta. rewrite len_zero.
    destruct values as [|x values].
    + cbn. rewrite ?app_nil_r. repeat split; reflexivity.
    + rewrite VisitIn_loop_spec. cbn. rewrite ?app_nil_r.
      repeat split; reflexivity.
  - intros v. unfold adds. cbn [walk fragments leafValues orderOf].
    pose proof (VisitAnd_fields walk specs v) as F. cbv zeta in F.
    destruct F as (Fc & Fa & Fo & Ff & _).
    destruct (adds_children specs IH (NewVisitor (fieldMap v)))
      as (Hc & Ha & Ho & _).
    cbn [NewVisitor conditions args orderClauses fieldMap app] in Hc, Ha, Ho.
    rewrite Fc, Fa, Fo, Ff, Hc, Ho. repeat split; try reflexivity.
    f_equal.
    destruct (flat_map (fragments (fieldMap v)) specs) eqn:E; [| exact Ha].
    symmetry. apply flat_map_nil. apply flat_map_nil in E.
    eapply Forall_impl; [exact E |]. cbn. intros a.
    apply fragments_nil_values.
  - intros v. unfold adds. cbn [walk fragments leafValues orderOf].
    pose proof (VisitOr_fields walk specs v) as F. cbv zeta in F.
    destruct F as (Fc & Fa & Fo & Ff & _).
    destruct (adds_branches specs v IH (NewVisitor (fieldMap v)) [])
      as (Hp & Ha & Ho).
    cbn [NewVisitor conditions args orderClauses fieldMap app] in Hp, Ha, Ho.
    rewrite Fc, Fa, Fo, Ff, Hp, Ho. repeat split; try reflexivity.
    f_equal.
    destruct (flat_map _ specs) eqn:E in |- *; [| exact Ha].
    symmetry. apply flat_map_nil. apply flat_map_nil in E.
    eapply Forall_impl; [exact E |]. cbn. intros a Hg.
    apply group_nil in Hg. exact (fragments_nil_values _ _ Hg).
Qed.

End VisitorFacts.

(** ** Counting placeholders *)

Section Counting.
Context {V : Type}.
Implicit Types (v : Visitor V) (s : Specification V).

Lemma sumQ_cons (x : string) (l : list string) :
  sumQ (x :: l) = (countQ x + sumQ l)%nat.
Proof. reflexivity. Qed.

Lemma sumQ_app (a b : list string) : sumQ (a ++ b) = (sumQ a + sumQ b)%nat.
Proof. unfold sumQ. now rewrite map_app, list_sum_app. Qed.

Lemma countQ_Join (l : list string) (sep : string) :
  countQ sep = 0%nat -> countQ (Join l sep) = sumQ l.
Proof.
  intros Hsep. induction l as [|x l IH]; [reflexivity |].
  cbn [Join]. destruct l as [|y l].
  - rewrite sumQ_cons. change (sumQ []) with 0%nat. lia.
  - rewrite !countQ_app, Hsep, IH, (sumQ_cons x). lia.
Qed.

Lemma sumQ_group (sep : string) (parts : list string) :
  countQ sep = 0%nat -> sumQ (group sep parts) = sumQ parts.
Proof.
  intros Hsep. destruct parts as [|x l]; [reflexivity |].
  unfold group. rewrite (sumQ_cons ("(" +:+ _)).
  rewrite !countQ_app, countQ_Join by exact Hsep.
  change (countQ "(") with 0%nat. change (countQ ")") with 0%nat.
  change (sumQ []) with 0%nat. lia.
Qed.

Lemma sumQ_replicate (n : nat) : sumQ (replicate n "?") = n.
Proof.
  induction n as [|n IH]; [reflexivity |].
  cbn [replicate]. rewrite sumQ_cons, IH. reflexivity.
Qed.

Lemma Forall_mp {A : Type} (P Q : A -> Prop) (l : list A) :
  Forall (fun x => P x -> Q x) l -> Forall P l -> Forall Q l.
Proof.
  induction 1 as [|x l Hx _ IH]; intros H; [constructor |].
  inversion H; subst. constructor; auto.
Qed.

Lemma forallb_flat_map {A B : Type} (p : B -> bool) (f : A -> list B)
    (l : list A) :
  forallb p (flat_map f l) = forallb (fun x => forallb p (f x)) l.
Proof.
  induction l as [|x l IH]; [reflexivity |].
  cbn [flat_map forallb]. now rewrite forallb_app, IH.
Qed.

Lemma fieldsAll_children (p : string -> bool) (fm : gmap string string)
    (specs : list (Specification V)) :
  forallb (fun f => p (storageName fm f)) (flat_map whereFields specs) = true ->
  Forall (fun s => fieldsAll p fm s = true) specs.
Proof.
  rewrite forallb_flat_map, forallb_forall. intros H.
  apply List.Forall_forall. intros s Hs. exact (H s Hs).
Qed.

Lemma sumQ_flat_map {A : Type} (f : A -> list string) (g : A -> nat)
    (l : list A) :
  Forall (fun x => sumQ (f x) = g x) l ->
  sumQ (flat_map f l) = list_sum (map g l).
Proof.
  induction 1 as [|x l Hx _ IH]; [reflexivity |].
  cbn [flat_map map list_sum fold_right]. now rewrite sumQ_app, Hx, IH.
Qed.

(** Without [?] in the storage names, the fragments of a tree hold one
    generic placeholder per value. *)
Lemma fragments_count (fm : gmap string string) s :
  fieldsAll noQ fm s = true -> sumQ (fragments fm s) = valueCount s.
Proof.
  tree_induction s specs IH.
  - destruct s; try exact I; unfold fieldsAll, noQ;
      cbn [whereFields forallb fragments valueCount];
      try reflexivity;
      try (rewrite andb_true_r, Nat.eqb_eq; intros H;
           rewrite sumQ_cons, countQ_app, H; reflexivity).
    destruct values as [|x values]; [reflexivity |].
    cbn [forallb]. rewrite andb_true_r, Nat.eqb_eq. intros H.
    rewrite sumQ_cons.
    rewrite !countQ_app, H, countQ_Join, sumQ_replicate by reflexivity.
    change (countQ " IN (") with 0%nat. change (countQ ")") with 0%nat.
    change (sumQ []) with 0%nat. lia.
  - unfold fieldsAll. cbn [whereFields fragments valueCount]. intros H.
    apply fieldsAll_children in H.
    rewrite sumQ_group by reflexivity. apply sumQ_flat_map.
    exact (Forall_mp _ _ _ IH H).
  - unfold fieldsAll. cbn [whereFields fragments valueCount]. intros H.
    apply fieldsAll_children in H.
    rewrite sumQ_group by reflexivity. apply sumQ_flat_map.
    apply (Forall_mp _ _ _ IH) in H.
    eapply Forall_impl; [exact H |]. cbn. intros s Hs.
    now rewrite sumQ_group by reflexivity.
Qed.

Lemma leafValues_length s : length (leafValues s) = valueCount s.
Proof.
  tree_induction s specs IH.
  - destruct s; try exact I; reflexivity.
  - cbn [leafValues valueCount].
    induction IH as [|x l Hx _ IHl]; [reflexivity |].
    cbn [flat_map map list_sum fold_right]. now rewrite length_app, Hx, IHl.
  - cbn [leafValues valueCount].
    induction IH as [|x l Hx _ IHl]; [reflexivity |].
    cbn [flat_map map list_sum fold_right]. now rewrite length_app, Hx, IHl.
Qed.

End Counting.

(** ** Numbering the fragments of a tree *)

Section Numbering.
Context {V : Type}.
Implicit Types (v : Visitor V) (s : Specification V).

Lemma numberList_app (a b : list string) :
  forall k, numberList k (a ++ b)
            = numberList k a ++ numberList (k + Z.of_nat (sumQ a)) b.
Proof.
  induction a as [|x a IH]; intros k; cbn [app numberList].
  - now rewrite Z.add_0_r.
  - rewrite IH, sumQ_cons. do 3 f_equal. lia.
Qed.

Lemma ValidString_Join (l : list string) (sep : string) :
  Forall (fun c => ValidString c = true) l -> ValidString sep = true ->
  ValidString (Join l sep) = true.
Proof.
  intros Hl Hsep. induction Hl as [|x l Hx Hl IH]; [reflexivity |].
  cbn [Join]. destruct l as [|y l]; [exact Hx |].
  apply ValidString_app; [exact Hx |]. apply ValidString_app; assumption.
Qed.

Lemma number_Join (l : list string) (sep : string) :
  Forall (fun c => ValidString c = true) l -> plain sep = true ->
  forall k, number k (Join l sep) = Join (numberList k l) sep.
Proof.
  intros Hl Hsep. induction Hl as [|x l Hx Hl IH]; intros k.
  - reflexivity.
  - cbn [Join numberList]. destruct l as [|y l]; [reflexivity |].
    rewrite number_app by exact Hx.
    rewrite number_plain_app by exact Hsep.
    rewrite IH. reflexivity.
Qed.

Lemma plain_valid (x : string) : plain x = true -> ValidString x = true.
Proof. now intros [H _]%plain_spec. Qed.

Lemma valid_group (sep : string) (parts : list string) :
  Forall (fun c => ValidString c = true) parts -> plain sep = true ->
  Forall (fun c => ValidString c = true) (group sep parts).
Proof.
  intros Hp Hsep. destruct parts as [|x l]; [constructor |].
  unfold group. constructor; [| constructor].
  apply ValidString_app; [reflexivity |].
  apply ValidString_app; [| reflexivity].
  apply ValidString_Join; [exact Hp | now apply plain_valid].
Qed.

Lemma numberList_group (sep : string) (parts : list string) :
  Forall (fun c => ValidString c = true) parts -> plain sep = true ->
  forall k, numberList k (group sep parts) = group sep (numberList k parts).
Proof.
  intros Hp Hsep k. destruct parts as [|x l]; [reflexivity |].
  unfold group at 1. cbn [numberList].
  rewrite (number_plain_app k "(") by reflexivity.
  rewrite number_app
    by (apply ValidString_Join; [exact Hp | now apply plain_valid]).
  rewrite number_Join by assumption.
  rewrite (number_plain _ ")") by reflexivity.
  reflexivity.
Qed.

Lemma numberList_replicate (n : nat) :
  forall k, numberList k (replicate n "?") = map marker (indices k n).
Proof.
  unfold indices. induction n as [|n IH]; intros k; [reflexivity |].
  cbn [replicate numberList seq map]. rewrite number_placeholder, IH.
  rewrite Z.add_0_r. f_equal.
  rewrite <- (seq_shift n 0), !map_map. apply map_ext. intros i.
  f_equal. change (countQ "?") with 1%nat. lia.
Qed.

Lemma valid_replicate (n : nat) :
  Forall (fun c => ValidString c = true) (replicate n "?").
Proof. induction n; constructor; [reflexivity | assumption]. Qed.

(** With valid storage names, every fragment is valid text. *)
Lemma fragments_valid (fm : gmap string string) s :
  fieldsAll ValidString fm s = true ->
  Forall (fun c => ValidString c = true) (fragments fm s).
Proof.
  tree_induction s specs IH.
  - destruct s; try exact I; unfold fieldsAll;
      cbn [whereFields forallb fragments];
      try solve [intros _; constructor];
      try solve [rewrite andb_true_r; intros H; constructor; [| constructor];
                 apply ValidString_app; [exact H | reflexivity]].
    destruct values as [|x values].
    + intros _. constructor; [reflexivity | constructor].
    + cbn [forallb]. rewrite andb_true_r. intros H.
      constructor; [| constructor].
      apply ValidString_app; [exact H |].
      apply ValidString_app; [reflexivity |].
      apply ValidString_app; [| reflexivity].
      apply ValidString_Join; [apply valid_replicate | reflexivity].
  - unfold fieldsAll. cbn [whereFields fragments]. intros H.
    apply fieldsAll_children in H. apply (Forall_mp _ _ _ IH) in H.
    apply valid_group; [| reflexivity].
    apply Forall_flat_map. exact H.
  - unfold fieldsAll. cbn [whereFields fragments]. intros H.
    apply fieldsAll_children in H. apply (Forall_mp _ _ _ IH) in H.
    apply valid_group; [| reflexivity].
    apply Forall_flat_map. eapply Forall_impl; [exact H |]. cbn.
    intros s Hs. apply valid_group; [exact Hs | reflexivity].
Qed.

Lemma fieldsAll_plain (fm : gmap string string) s :
  fieldsAll plain fm s = true ->
  fieldsAll noQ fm s = true /\ fieldsAll ValidString fm s = true.
Proof.
  unfold fieldsAll. rewrite !forallb_forall. intros H.
  split; intros f Hf; specialize (H f Hf); apply plain_spec in H;
    destruct H as [Hv Hq]; [now apply Nat.eqb_eq | exact Hv].
Qed.

Lemma plain_fieldsAll (fm : gmap string string) s :
  fieldsAll noQ fm s = true -> fieldsAll ValidString fm s = true ->
  fieldsAll plain fm s = true.
Proof.
  unfold fieldsAll. rewrite !forallb_forall. intros Hq Hv f Hf.
  apply plain_spec. split; [exact (Hv f Hf) |].
  apply Nat.eqb_eq. exact (Hq f Hf).
Qed.

(** Threading the index through the children of a composite. *)
Lemma numbered_children (F : Specification V -> list string)
    (N : Specification V -> Z -> list string)
    (specs : list (Specification V)) :
  Forall (fun s => (forall k, numberList k (F s) = N s k)
                   /\ sumQ (F s) = valueCount s) specs ->
  forall (k : Z) (acc : list string),
    snd (fold_left
           (fun (st : Z * list string) s =>
              (fst st + Z.of_nat (valueCount s), snd st ++ N s (fst st)))
           specs (k, acc))
    = acc ++ numberList k (flat_map F specs).
Proof.
  induction 1 as [|s specs [Hn Hq] _ IH]; intros k acc;
    cbn [fold_left flat_map fst snd].
  - now rewrite app_nil_r.
  - rewrite IH, numberList_app, Hq, Hn, app_assoc. reflexivity.
Qed.

Lemma number_leaf (k : Z) (f op : string) :
  plain f = true -> plain op = true ->
  number k (f +:+ op +:+ "?") = f +:+ op +:+ marker k.
Proof.
  intros Hf Hop. rewrite !number_plain_app by assumption.
  now rewrite number_placeholder.
Qed.

Lemma children_facts (fm : gmap string string)
    (specs : list (Specification V)) :
  Forall (fun s => fieldsAll plain fm s = true ->
                   forall k, numberList k (fragments fm s) = numbered fm s k)
         specs ->
  Forall (fun s => fieldsAll plain fm s = true) specs ->
  Forall (fun s => (forall k, numberList k (fragments fm s) = numbered fm s k)
                   /\ sumQ (fragments fm s) = valueCount s
                   /\ Forall (fun c => ValidString c = true) (fragments fm s))
         specs.
Proof.
  intros IH H. apply (Forall_mp _ _ _ IH) in H as H'.
  induction H as [|s specs Hs _ IHl]; [constructor |].
  inversion H'; subst. inversion IH; subst.
  destruct (fieldsAll_plain _ _ Hs) as [Hq Hv].
  constructor; [| now apply IHl].
  repeat split; [assumption | now apply fragments_count
                | now apply fragments_valid].
Qed.

(** With plain storage names, the loop of [BuildQuery] turns the fragments
    of a tree into its numbered fragments. *)
Lemma fragments_numbered (fm : gmap string string) s :
  fieldsAll plain fm s = true ->
  forall k, numberList k (fragments fm s) = numbered fm s k.
Proof.
  tree_induction s specs IH.
  - destruct s; try exact I; unfold fieldsAll;
      cbn [whereFields forallb fragments numbered numberList];
      try solve [intros _ k; reflexivity];
      try solve [rewrite andb_true_r; intros H k; f_equal;
                 match goal with
                 | |- _ = _ +:+ ?op +:+ marker _ =>
                   apply (number_leaf k _ op H eq_refl)
                 end].
    destruct values as [|x values]; [intros _ k; reflexivity |].
    cbn [forallb numberList]. rewrite andb_true_r. intros H k. f_equal.
    rewrite (number_plain_app k _ _ H).
    rewrite (number_plain_app k " IN (") by reflexivity.
    rewrite number_app
      by (apply ValidString_Join; [apply valid_replicate | reflexivity]).
    rewrite number_Join by (try apply valid_replicate; reflexivity).
    rewrite numberList_replicate, (number_plain _ ")") by reflexivity.
    reflexivity.
  - unfold fieldsAll. cbn [whereFields fragments numbered]. intros H k.
    apply fieldsAll_children in H.
    pose proof (children_facts fm specs IH H) as F.
    rewrite numberList_group; [| | reflexivity].
    + f_equal. symmetry.
      rewrite (numbered_children (fragments fm) (numbered fm)); [reflexivity |].
      eapply Forall_impl; [exact F |]. cbn. intros s (Hn & Hq & _).
      split; assumption.
    + apply Forall_flat_map. eapply Forall_impl; [exact F |]. cbn.
      intros s (_ & _ & Hv). exact Hv.
  - unfold fieldsAll. cbn [whereFields fragments numbered]. intros H k.
    apply fieldsAll_children in H.
    pose proof (children_facts fm specs IH H) as F.
    rewrite numberList_group; [| | reflexivity].
    + f_equal. symmetry.
      rewrite (numbered_children
                 (fun s => group " AND " (fragments fm s))
                 (fun s k => group " AND " (numbered fm s k)));
        [reflexivity |].
      eapply Forall_impl; [exact F |]. cbn. intros s (Hn & Hq & Hv).
      split.
      * intros k'. rewrite numberList_group by (try exact Hv; reflexivity).
        now rewrite Hn.
      * now rewrite sumQ_group by reflexivity.
    + apply Forall_flat_map. eapply Forall_impl; [exact F |]. cbn.
      intros s (_ & _ & Hv). apply valid_group; [exact Hv | reflexivity].
Qed.

End Numbering.

(** ** Assembling the query *)

Section Assembly.
Context {V : Type}.
Implicit Types (v : Visitor V) (s : Specification V).

Lemma BuildQuery_tails v (baseQuery : string) :
  BuildQuery v baseQuery
  = (baseQuery +:+ whereTail v +:+ orderTail v +:+ limitTail v
       +:+ offsetTail v,
     args v).
Proof.
  unfold BuildQuery, whereTail, orderTail, limitTail, offsetTail, whereClause.
  cbv zeta. destruct (renumber _) as [finalQuery argIndex]. cbn [fst].
  destruct (0 <? len (conditions v)), (0 <? len (orderClauses v)),
    (0 <? limit v), (0 <? offset v);
    rewrite ?sapp_assoc, ?sapp_nil_l, ?sapp_nil_r; reflexivity.
Qed.

Lemma whereClause_number v :
  whereClause v = number 1 (Join (conditions v) " AND ").
Proof. reflexivity. Qed.

Lemma whereMarkers_eq v :
  whereMarkers v
  = map marker (indices 1 (sumQ (conditions v))).
Proof.
  unfold whereMarkers. rewrite renumber_eq. cbn [fst].
  rewrite markers_writes, runes_countQ, countQ_Join by reflexivity.
  reflexivity.
Qed.

(** A fresh visitor that has accepted a tree holds what the tree adds. *)
Lemma Accept_fresh (fm : gmap string string) s :
  let v := Accept s (NewVisitor fm) in
  conditions v = fragments fm s /\ args v = leafValues s
  /\ orderClauses v = orderOf fm s /\ fieldMap v = fm.
Proof.
  cbv zeta. rewrite Accept_walk.
  destruct (walk_adds s (NewVisitor fm)) as (Hc & Ha & Ho & Hf).
  repeat split; assumption.
Qed.

(** With plain storage names, the WHERE text of a tree compiled on its
    own is its numbered fragments joined by AND. *)
Lemma whereClause_numbered (fm : gmap string string) s :
  fieldsAll plain fm s = true ->
  whereClause (Accept s (NewVisitor fm)) = Join (numbered fm s 1) " AND ".
Proof.
  intros Hp. destruct (fieldsAll_plain _ _ Hp) as [Hq Hv].
  destruct (Accept_fresh fm s) as (Hc & _). cbv zeta in Hc.
  rewrite whereClause_number, Hc.
  rewrite number_Join by (try apply fragments_valid; trivial).
  now rewrite fragments_numbered.
Qed.

End Assembly.

(** ** No generic placeholder survives the renumbering *)

Lemma byteZ_chr (x : Z) : 0 <= x < 256 -> byteZ (chr x) = x.
Proof.
  intros H. unfold byteZ, chr. rewrite N_ascii_embedding by lia. lia.
Qed.

Lemma countQ_byte (x : Z) (t : string) :
  0 <= x < 256 -> x <> 63 -> countQ (String (chr x) t) = countQ t.
Proof.
  intros H Hx. cbn [countQ]. rewrite byteZ_chr by exact H.
  destruct (x =? 63) eqn:E; [apply Z.eqb_eq in E; contradiction | reflexivity].
Qed.

Lemma countQ_cont (x : Z) (t : string) :
  0 <= x ->
  countQ (String (chr (Z.lor tx (Z.land (byte x) maskx))) t) = countQ t.
Proof.
  intros H. rewrite enc_cont by exact H. apply countQ_byte; euclid.
Qed.

Lemma countQ_uint (d : Decimal.uint) :
  countQ (NilEmpty.string_of_uint d) = 0%nat.
Proof. induction d; cbn [NilEmpty.string_of_uint]; try reflexivity; exact IHd. Qed.

Lemma countQ_itoa (k : Z) : countQ (itoa k) = 0%nat.
Proof.
  unfold itoa, NilZero.string_of_int, NilZero.string_of_uint.
  destruct (Z.to_int k) as [d | d]; destruct d; try reflexivity;
    cbn [NilEmpty.string_of_uint]; apply countQ_uint.
Qed.

Lemma countQ_encodeRune (r : Z) : r <> 63 -> countQ (encodeRune r) = 0%nat.
Proof.
  intros Hr. unfold encodeRune. cbv zeta. repeat split_if;
    try reflexivity; tests.
  - apply countQ_byte; unfold byte; euclid.
  - rewrite Z.shiftr_div_pow2 by lia.
    rewrite (enc_lead _ _ 5) by (unfold t2; euclid).
    rewrite countQ_byte by (unfold t2; euclid).
    now rewrite countQ_cont by lia.
  - rewrite !Z.shiftr_div_pow2 by lia.
    rewrite (enc_lead _ _ 4) by (unfold t3; euclid).
    rewrite countQ_byte by (unfold t3; euclid).
    rewrite countQ_cont by euclid.
    now rewrite countQ_cont by lia.
  - rewrite !Z.shiftr_div_pow2 by lia.
    rewrite (enc_lead _ _ 3) by (unfold t4; euclid).
    rewrite countQ_byte by (unfold t4; euclid).
    rewrite countQ_cont by euclid. rewrite countQ_cont by euclid.
    now rewrite countQ_cont by lia.
Qed.

Lemma countQ_writes (rs : list Z) :
  forall k, countQ (Builder_String (writes rs k)) = 0%nat.
Proof.
  induction rs as [|r rs IH]; intros k; [reflexivity |].
  cbn [writes]. destruct (r =? 63) eqn:E;
    cbn [Builder_String fold_right written];
    change (fold_right _ _ ?l) with (Builder_String l);
    rewrite countQ_app, IH.
  - change (countQ ("$" +:+ itoa k)) with (countQ (itoa k)).
    now rewrite countQ_itoa.
  - apply Z.eqb_neq in E. now rewrite countQ_encodeRune.
Qed.

(** Every [?] of the joined condition text is replaced by a marker. *)
Lemma whereClause_countQ {V : Type} (v : Visitor V) :
  countQ (whereClause v) = 0%nat.
Proof.
  unfold whereClause. rewrite renumber_eq. apply countQ_writes.
Qed.

(** * The claims *)

Section Claims.
Context {V : Type}.
Implicit Types (v : Visitor V) (s : Specification V).

(** C1, as amended.  For every field table and every tree in which no
    storage name written into a condition contains a [?]: once a fresh
    visitor has accepted the tree, its conditions are the fragments of the
    tree, whose [?] are the value slots, one per value payload of the
    leaves (one per comparison or Like leaf, one per element of each In) in
    traversal order; [BuildQuery] appends the WHERE text to the base query
    and writes into it the positional markers [$1 .. $n] in this order, [n]
    being the number of these payloads; the argument list returned is the
    list of the payloads in traversal order, so it has length [n] and the
    marker [$k] stands for [args[k-1]]; and when the storage names are
    valid UTF-8 the WHERE text is the fragments of the tree joined by AND,
    the slot of the [k]-th value reading [$k]. *)
Theorem C1_placeholders_match_arguments (fm : gmap string string) s
    (baseQuery : string) :
  fieldsAll noQ fm s = true ->
  let v := Accept s (NewVisitor fm) in
  let args := snd (BuildQuery v baseQuery) in
  fst (BuildQuery v baseQuery)
  = baseQuery +:+ whereTail v +:+ orderTail v +:+ limitTail v +:+ offsetTail v
  /\ conditions v = fragments fm s
  /\ sumQ (fragments fm s) = valueCount s
  /\ whereMarkers v = map marker (indices 1 (valueCount s))
  /\ length (whereMarkers v) = valueCount s
  /\ args = leafValues s
  /\ length args = valueCount s
  /\ (fieldsAll ValidString fm s = true ->
      whereClause v = Join (numbered fm s 1) " AND ").
Proof.
  intros Hq. cbv zeta.
  destruct (Accept_fresh fm s) as (Hc & Ha & _ & _). cbv zeta in Hc, Ha.
  rewrite BuildQuery_tails. cbn [fst snd].
  assert (Hm : whereMarkers (Accept s (NewVisitor fm))
               = map marker (indices 1 (valueCount s))).
  { rewrite whereMarkers_eq, Hc, fragments_count by exact Hq. reflexivity. }
  repeat split.
  - exact Hc.
  - now apply fragments_count.
  - exact Hm.
  - rewrite Hm. unfold indices. now rewrite !length_map, length_seq.
  - exact Ha.
  - rewrite Ha. apply leafValues_length.
  - intros Hv. apply whereClause_numbered. now apply plain_fieldsAll.
Qed.

(** C2, as amended.  For every field [f] whose storage name is valid UTF-8
    and contains no [?], and every value [x], a fresh visitor that accepts
    [Equal(f, x)] builds from the base query [SELECT * FROM t] exactly
    [SELECT * FROM t WHERE <mapped f> = $1] with the argument list [[x]]. *)
Theorem C2_equal_alone (fm : gmap string string) (f : string) (x : V) :
  plain (mapField (@NewVisitor V fm) f) = true ->
  BuildQuery (Accept (Equal f x) (NewVisitor fm)) "SELECT * FROM t"
  = ("SELECT * FROM t WHERE " +:+ mapField (@NewVisitor V fm) f +:+ " = $1",
     [x]).
Proof.
  intros Hp. rewrite BuildQuery_tails. unfold whereTail.
  rewrite whereClause_number.
  change (conditions (Accept (Equal f x) (NewVisitor fm)))
    with [mapField (@NewVisitor V fm) f +:+ " = " +:+ "?"].
  cbn [Join]. rewrite number_leaf by (trivial; reflexivity).
  change (orderTail _) with "". change (limitTail _) with "".
  change (offsetTail _) with "". now rewrite !sapp_nil_l, sapp_nil_r.
Qed.

(** The children of a composite, visited one after the other into one
    accumulator. *)
Lemma fold_Accept_walk (specs : list (Specification V)) v :
  fold_left (fun sub s => Accept s sub) specs v
  = fold_left (fun sub s => walk s sub) specs v.
Proof.
  revert v. induction specs as [|s specs IH]; intros v; [reflexivity |].
  cbn [fold_left]. now rewrite IH, Accept_walk.
Qed.

Lemma fold_VisitOr_step_walk (specs : list (Specification V)) v
    (st : Visitor V * list string) :
  fold_left (VisitOr_step Accept v) specs st
  = fold_left (VisitOr_step walk v) specs st.
Proof.
  revert st. induction specs as [|s specs IH]; intros st; [reflexivity |].
  cbn [fold_left]. rewrite IH. f_equal.
  unfold VisitOr_step. destruct st as [sub orParts].
  now rewrite Accept_walk.
Qed.

(** C3.  A [Limit(10)] inside an [And], with no limit at the parent, gives
    the final limit 10.  A [Limit(5)] at the outer level together with a
    [Limit(20)] inside a nested [And] gives the final limit 20.  In general
    the limit (offset) after an [And] is that of the nested accumulator when
    it is strictly positive and the parent's own otherwise, so a nested zero
    or absent value never clears the parent's; the same holds for the
    accumulator an [Or] collects its branches into. *)
Theorem C3_nested_limit_offset (fm : gmap string string) (baseQuery : string)
    (specs : list (Specification V)) v :
  let sub := fold_left (fun sub s => Accept s sub) specs
                       (NewVisitor (fieldMap v)) in
  let collected := fst (fold_left (VisitOr_step Accept v) specs
                                  (NewVisitor (fieldMap v), [])) in
  (limit (Accept (And [Limit 10]) (@NewVisitor V fm)) = 10
   /\ BuildQuery (Accept (And [Limit 10]) (@NewVisitor V fm)) baseQuery
      = (baseQuery +:+ " LIMIT 10", []))
  /\ (limit (Accept (And [Limit 20]) (Accept (Limit 5) (@NewVisitor V fm))) = 20
      /\ limit (Accept (And [Limit 5; And [Limit 20]]) (@NewVisitor V fm)) = 20
      /\ BuildQuery (Accept (And [Limit 5; And [Limit 20]]) (@NewVisitor V fm))
                    baseQuery
         = (baseQuery +:+ " LIMIT 20", []))
  /\ (limit (Accept (And specs) v)
      = if 0 <? limit sub then limit sub else limit v)
  /\ (offset (Accept (And specs) v)
      = if 0 <? offset sub then offset sub else offset v)
  /\ (limit sub <= 0 -> limit (Accept (And specs) v) = limit v)
  /\ (offset sub <= 0 -> offset (Accept (And specs) v) = offset v)
  /\ (limit (Accept (Or specs) v)
      = if 0 <? limit collected then limit collected else limit v)
  /\ (offset (Accept (Or specs) v)
      = if 0 <? offset collected then offset collected else offset v)
  /\ (limit collected <= 0 -> limit (Accept (Or specs) v) = limit v)
  /\ (offset collected <= 0 -> offset (Accept (Or specs) v) = offset v).
Proof.
  cbv zeta. rewrite fold_Accept_walk, fold_VisitOr_step_walk.
  pose proof (VisitAnd_fields walk specs v) as FA. cbv zeta in FA.
  destruct FA as (_ & _ & _ & _ & Hl & Ho).
  pose proof (VisitOr_fields walk specs v) as FO. cbv zeta in FO.
  destruct FO as (_ & _ & _ & _ & Hl' & Ho').
  change (Accept (And specs) v) with (VisitAnd walk specs v).
  change (Accept (Or specs) v) with (VisitOr walk specs v).
  rewrite Hl, Ho, Hl', Ho'.
  split; [| split].
  - split; reflexivity.
  - repeat split; reflexivity.
  - repeat split; try reflexivity; intros H;
      match goal with
      | |- (if ?b then _ else _) = _ =>
        destruct b eqn:E; [apply Z.ltb_lt in E; lia | reflexivity]
      end.
Qed.

(** C4.  [And(Equal("a",1), Or(Equal("b",2), Equal("c",3)))] compiles to
    one parenthesized AND-joined group holding the condition on [a] and one
    nested OR-joined group of two separately parenthesized branches for [b]
    and [c], with the markers [$1], [$2], [$3] and the arguments in the same
    order: with the identity field table the query reads
    [WHERE (a = $1 AND ((b = $2) OR (c = $3)))], and with a table whose
    names for [a], [b], [c] are plain the same text with the mapped names. *)
Theorem C4_and_or_structure (fm : gmap string string) (x y z : V) :
  let s := And [Equal "a" x; Or [Equal "b" y; Equal "c" z]] in
  BuildQuery (Accept s (NewVisitor ∅)) "SELECT * FROM t"
  = ("SELECT * FROM t WHERE (a = $1 AND ((b = $2) OR (c = $3)))", [x; y; z])
  /\ (fieldsAll plain fm s = true ->
      BuildQuery (Accept s (NewVisitor fm)) "SELECT * FROM t"
      = ("SELECT * FROM t WHERE ("
           +:+ storageName fm "a" +:+ " = $1 AND (("
           +:+ storageName fm "b" +:+ " = $2) OR ("
           +:+ storageName fm "c" +:+ " = $3)))",
         [x; y; z])).
Proof.
  cbv zeta. split; [vm_compute; reflexivity |].
  intros Hp. pose proof (whereClause_numbered fm _ Hp) as Hw.
  rewrite BuildQuery_tails. unfold whereTail. rewrite Hw.
  change (orderTail _) with "". change (limitTail _) with "".
  change (offsetTail _) with "".
  cbn [numbered fold_left group Join fst snd valueCount app].
  rewrite !sapp_assoc, !sapp_nil_l, ?sapp_nil_r. reflexivity.
Qed.

(** C5, as amended.  For every field [f], [In(f)] without values appends
    the fragment [1=0], which holds no placeholder, and adds no argument;
    the query built from it alone reads [WHERE 1=0] with no arguments.  For
    every field [f] whose storage name is valid UTF-8 and contains no [?],
    [In(f, a, b, c)] appends [<mapped f> IN (?, ?, ?)] and the arguments
    [a, b, c]; the query built from it alone reads
    [WHERE <mapped f> IN ($1, $2, $3)] with the arguments [[a; b; c]]. *)
Theorem C5_in_fragment (fm : gmap string string) (f baseQuery : string)
    (a b c : V) v :
  (conditions (Accept (In f []) v) = conditions v ++ ["1=0"]
   /\ args (Accept (In f []) v) = args v
   /\ countQ "1=0" = 0%nat
   /\ BuildQuery (Accept (In f []) (@NewVisitor V fm)) baseQuery
      = (baseQuery +:+ " WHERE 1=0", []))
  /\ (conditions (Accept (In f [a; b; c]) v)
      = conditions v ++ [mapField v f +:+ " IN (?, ?, ?)"]
      /\ args (Accept (In f [a; b; c]) v) = args v ++ [a; b; c])
  /\ (plain (mapField (@NewVisitor V fm) f) = true ->
      whereClause (Accept (In f [a; b; c]) (NewVisitor fm))
      = mapField (@NewVisitor V fm) f +:+ " IN ($1, $2, $3)"
      /\ BuildQuery (Accept (In f [a; b; c]) (NewVisitor fm)) baseQuery
         = (baseQuery +:+ " WHERE "
              +:+ mapField (@NewVisitor V fm) f +:+ " IN ($1, $2, $3)",
            [a; b; c])).
Proof.
  split; [| split].
  - repeat split; reflexivity.
  - split; [reflexivity |].
    destruct (walk_adds (In f [a; b; c]) v) as (_ & Ha & _).
    rewrite Accept_walk. exact Ha.
  - intros Hp.
    assert (Hw : whereClause (Accept (In f [a; b; c]) (NewVisitor fm))
                 = mapField (@NewVisitor V fm) f +:+ " IN ($1, $2, $3)").
    { rewrite whereClause_number.
      change (conditions (Accept (In f [a; b; c]) (NewVisitor fm)))
        with [mapField (@NewVisitor V fm) f
                +:+ " IN (" +:+ Join (replicate 3 "?") ", " +:+ ")"].
      cbn [Join]. rewrite (number_plain_app 1 _ _ Hp).
      rewrite (number_plain_app 1 " IN (") by reflexivity.
      rewrite number_app
        by (apply ValidString_Join; [apply valid_replicate | reflexivity]).
      rewrite number_Join by (try apply valid_replicate; reflexivity).
      rewrite numberList_replicate, (number_plain _ ")") by reflexivity.
      reflexivity. }
    split; [exact Hw |].
    rewrite BuildQuery_tails. unfold whereTail. rewrite Hw.
    change (orderTail _) with "". change (limitTail _) with "".
    change (offsetTail _) with "".
    now rewrite !sapp_nil_l, sapp_nil_r.
Qed.

(** C6.  When no specification is supplied the visitor accumulates nothing
    and [BuildQuery] returns the base query unchanged, with an empty
    argument list: no WHERE, ORDER BY, LIMIT or OFFSET is appended. *)
Theorem C6_absent_specification (fm : gmap string string) (baseQuery : string) :
  compile (V := V) fm None "SELECT * FROM t" = ("SELECT * FROM t", [])
  /\ compile (V := V) fm None baseQuery = (baseQuery, [])
  /\ BuildQuery (@NewVisitor V fm) baseQuery = (baseQuery, []).
Proof. repeat split. Qed.

(** C7.  [OrderBy(f, d)] appends exactly one clause, the storage name of
    [f], a space and the direction [d] as given, and changes nothing else.
    The clauses produced inside an [And] or an [Or] are appended to those of
    the parent, after them and in traversal order.  [BuildQuery] appends
    [ORDER BY] and the clauses joined by commas, after the WHERE part and
    before LIMIT and OFFSET, when there is at least one clause, and nothing
    otherwise. *)
Theorem C7_order_by (f d baseQuery : string) s
    (specs : list (Specification V)) v :
  let sub := fold_left (fun sub s => Accept s sub) specs
                       (NewVisitor (fieldMap v)) in
  let collected := fst (fold_left (VisitOr_step Accept v) specs
                                  (NewVisitor (fieldMap v), [])) in
  (orderClauses (Accept (OrderBy f d) v)
   = orderClauses v ++ [mapField v f +:+ " " +:+ d]
   /\ conditions (Accept (OrderBy f d) v) = conditions v
   /\ args (Accept (OrderBy f d) v) = args v
   /\ limit (Accept (OrderBy f d) v) = limit v
   /\ offset (Accept (OrderBy f d) v) = offset v)
  /\ orderClauses (Accept (And specs) v) = orderClauses v ++ orderClauses sub
  /\ orderClauses (Accept (Or specs) v)
     = orderClauses v ++ orderClauses collected
  /\ orderClauses (Accept s v) = orderClauses v ++ orderOf (fieldMap v) s
  /\ fst (BuildQuery v baseQuery)
     = baseQuery +:+ whereTail v +:+ orderTail v +:+ limitTail v
         +:+ offsetTail v
  /\ (orderClauses v <> [] ->
      orderTail v = " ORDER BY " +:+ Join (orderClauses v) ", ")
  /\ (orderClauses v = [] -> orderTail v = "").
Proof.
  cbv zeta. rewrite fold_Accept_walk, fold_VisitOr_step_walk.
  pose proof (VisitAnd_fields walk specs v) as FA. cbv zeta in FA.
  destruct FA as (_ & _ & HoA & _).
  pose proof (VisitOr_fields walk specs v) as FO. cbv zeta in FO.
  destruct FO as (_ & _ & HoO & _).
  destruct (walk_adds s v) as (_ & _ & Hs & _).
  split; [repeat split; reflexivity |].
  split; [exact HoA |]. split; [exact HoO |].
  split; [rewrite Accept_walk; exact Hs |].
  split; [now rewrite BuildQuery_tails |].
  unfold orderTail. rewrite len_pos.
  split; intros H; destruct (orderClauses v); congruence.
Qed.

Lemma writesName_mapField v (f : string) : writesName v f (mapField v f).
Proof.
  unfold writesName. split; [| split].
  - intros s op Hc. destruct s; try discriminate Hc;
      injection Hc as <- <-; reflexivity.
  - intros x xs. rewrite Accept_walk.
    destruct (walk_adds (In f (x :: xs)) v) as (Hc & _). exact Hc.
  - intros d. reflexivity.
Qed.


(** C9.  For every comparison node whose storage name contains a [?], the
    loop of [BuildQuery] replaces the [?] of the name as well: the WHERE
    text then holds one marker per [?] of the name on top of the one of the
    value, more markers than the single argument; no [?] is left in it, so
    the name is not written as it is and the text is not the intended
    [<name> <op> $1]. *)
Theorem C9_question_mark_in_field (fm : gmap string string) s
    (f op baseQuery : string) :
  comparison s = Some (f, op) ->
  (0 < countQ (mapField (@NewVisitor V fm) f))%nat ->
  let v := Accept s (NewVisitor fm) in
  let args := snd (BuildQuery v baseQuery) in
  length args = 1%nat
  /\ whereMarkers v
     = map marker (indices 1 (countQ (mapField (@NewVisitor V fm) f) + 1))
  /\ (length args < length (whereMarkers v))%nat
  /\ fst (BuildQuery v baseQuery) = baseQuery +:+ " WHERE " +:+ whereClause v
  /\ countQ (whereClause v) = 0%nat
  /\ whereClause v
     <> mapField (@NewVisitor V fm) f +:+ " " +:+ op +:+ " $1".
Proof.
  intros Hc Hq. cbv zeta.
  pose proof (proj1 (writesName_mapField (NewVisitor fm) f) s op Hc) as Hcond.
  cbn [NewVisitor conditions app] in Hcond.
  set (name := mapField (@NewVisitor V fm) f) in *.
  assert (Hop : countQ (" " +:+ op +:+ " ?") = 1%nat
                /\ countQ (" " +:+ op +:+ " $1") = 0%nat).
  { destruct s; try discriminate Hc; injection Hc as <- <-;
      split; reflexivity. }
  destruct Hop as [Hop Hop'].
  assert (Hm : whereMarkers (Accept s (NewVisitor fm))
               = map marker (indices 1 (countQ name + 1))).
  { rewrite whereMarkers_eq, Hcond, sumQ_cons, countQ_app, Hop.
    change (sumQ []) with 0%nat. do 2 f_equal. lia. }
  assert (Ha : args (Accept s (NewVisitor fm)) = leafValues s).
  { now destruct (Accept_fresh fm s) as (_ & Ha & _). }
  assert (Hl : length (leafValues s) = 1%nat).
  { destruct s; try discriminate Hc; reflexivity. }
  rewrite BuildQuery_tails. cbn [fst snd].
  split; [now rewrite Ha |].
  split; [exact Hm |].
  split; [rewrite Hm, Ha, Hl; unfold indices;
          rewrite !length_map, length_seq; lia |].
  split.
  - unfold whereTail. rewrite Hcond.
    replace (orderTail (Accept s (NewVisitor fm))) with ""
      by (destruct s; try discriminate Hc; reflexivity).
    replace (limitTail (Accept s (NewVisitor fm))) with ""
      by (destruct s; try discriminate Hc; reflexivity).
    replace (offsetTail (Accept s (NewVisitor fm))) with ""
      by (destruct s; try discriminate Hc; reflexivity).
    change (0 <? len [_]) with true. cbv iota.
    now rewrite !sapp_nil_l, sapp_nil_r.
  - split; [apply whereClause_countQ |].
    intros E. apply (f_equal countQ) in E.
    rewrite whereClause_countQ, countQ_app, Hop' in E. lia.
Qed.

(** C10.  [VisitLimit] and [VisitOffset] store the value they are given,
    whatever it is and whatever was stored: a zero after a positive value
    in the same accumulator erases it.  So [And(Limit(5), Limit(0))] leaves
    the nested accumulator with limit 0, nothing is propagated, and the
    query built is the base query, without LIMIT; whereas a [Limit(0)]
    alone in a nested [And] leaves a limit 5 already set in the parent in
    place. *)
Theorem C10_limit_overwrite (fm : gmap string string) (baseQuery : string)
    (n : Z) v :
  limit (Accept (Limit n) v) = n
  /\ offset (Accept (Offset n) v) = n
  /\ limit (Accept (Limit 0) (Accept (Limit 5) v)) = 0
  /\ offset (Accept (Offset 0) (Accept (Offset 5) v)) = 0
  /\ limit (Accept (And [Limit 5; Limit 0]) (@NewVisitor V fm)) = 0
  /\ BuildQuery (Accept (And [Limit 5; Limit 0]) (@NewVisitor V fm)) baseQuery
     = (baseQuery, [])
  /\ BuildQuery (Accept (And [Offset 5; Offset 0]) (@NewVisitor V fm)) baseQuery
     = (baseQuery, [])
  /\ limit (Accept (And [Limit 0]) (Accept (Limit 5) (@NewVisitor V fm))) = 5
  /\ BuildQuery (Accept (And [Limit 0]) (Accept (Limit 5) (@NewVisitor V fm)))
                baseQuery
     = (baseQuery +:+ " LIMIT 5", []).
Proof. repeat split. Qed.

End Claims.

(** C1 at a tree with nested composition and a mapped field. *)
Lemma C1_witness :
  let fm : gmap string string := <["Status" := "status"]> ∅ in
  let s : Specification Z :=
    And [Equal "a" 1; Or [In "Status" [2; 3]; Like "c" 4]; Limit 7] in
  fieldsAll noQ fm s = true
  /\ whereMarkers (Accept s (NewVisitor fm)) = map marker (indices 1 (valueCount s))
  /\ snd (BuildQuery (Accept s (NewVisitor fm)) "SELECT * FROM t") = leafValues s.
Proof.
  intros fm s.
  assert (H : fieldsAll noQ fm s = true) by (vm_compute; reflexivity).
  split; [exact H |].
  pose proof (C1_placeholders_match_arguments fm s "SELECT * FROM t" H) as T.
  cbv zeta in T. destruct T as (_ & _ & _ & Hm & _ & Ha & _).
  split; [exact Hm | exact Ha].
Defined.

(** C1 as stated fails when a storage name contains [?]: [Equal("a?", 1)]
    compiles to two markers for one value. *)
Lemma C1_counterexample :
  let s : Specification Z := Equal "a?" 1 in
  let v := Accept s (NewVisitor ∅) in
  BuildQuery v "SELECT * FROM t" = ("SELECT * FROM t WHERE a$1 = $2", [1])
  /\ whereMarkers v = ["$1"; "$2"]
  /\ valueCount s = 1%nat
  /\ length (whereMarkers v) <> valueCount s
  /\ length (whereMarkers v) <> length (snd (BuildQuery v "SELECT * FROM t")).
Proof. vm_compute. repeat split; discriminate. Qed.

(** C2 for a field the table maps to a plain name. *)
Lemma C2_witness :
  plain (mapField (@NewVisitor Z (<["ID" := "id"]> ∅)) "ID") = true
  /\ BuildQuery (Accept (Equal "ID" 42) (NewVisitor (<["ID" := "id"]> ∅)))
       "SELECT * FROM t"
     = ("SELECT * FROM t WHERE "
          +:+ mapField (@NewVisitor Z (<["ID" := "id"]> ∅)) "ID" +:+ " = $1",
        [42]).
Proof.
  split; [vm_compute; reflexivity |].
  apply (C2_equal_alone (<["ID" := "id"]> ∅) "ID" 42).
  vm_compute; reflexivity.
Defined.

(** C2 as stated fails for a field with [?]: the field text is renumbered
    too. *)
Lemma C2_counterexample :
  BuildQuery (Accept (Equal "a?" 1) (NewVisitor ∅)) "SELECT * FROM t"
  = ("SELECT * FROM t WHERE a$1 = $2", [1])
  /\ BuildQuery (Accept (Equal "a?" 1) (NewVisitor ∅)) "SELECT * FROM t"
     <> ("SELECT * FROM t WHERE " +:+ mapField (@NewVisitor Z ∅) "a?" +:+ " = $1",
         [1]).
Proof. vm_compute. split; [reflexivity | discriminate]. Qed.

(** C3 where the parent holds limit 5 and the nested [And] sets none. *)
Lemma C3_witness :
  let v : Visitor Z := Accept (Limit 5) (NewVisitor ∅) in
  let specs : list (Specification Z) := [Limit 0; OrderBy "x" "ASC"] in
  limit (fold_left (fun sub s => Accept s sub) specs (NewVisitor (fieldMap v)))
  <= 0
  /\ limit (Accept (And specs) v) = limit v.
Proof.
  intros v specs.
  assert (H : limit (fold_left (fun sub s => Accept s sub) specs
                               (NewVisitor (fieldMap v))) <= 0)
    by (vm_compute; discriminate).
  split; [exact H |].
  pose proof (C3_nested_limit_offset ∅ "SELECT * FROM t" specs v) as T.
  cbv zeta in T. destruct T as (_ & _ & _ & _ & Hl & _). exact (Hl H).
Defined.

(** C4 with a table that renames [a]. *)
Lemma C4_witness :
  let fm : gmap string string := <["a" := "col_a"]> ∅ in
  let s : Specification Z := And [Equal "a" 1; Or [Equal "b" 2; Equal "c" 3]] in
  fieldsAll plain fm s = true
  /\ BuildQuery (Accept s (NewVisitor fm)) "SELECT * FROM t"
     = ("SELECT * FROM t WHERE ("
          +:+ storageName fm "a" +:+ " = $1 AND (("
          +:+ storageName fm "b" +:+ " = $2) OR ("
          +:+ storageName fm "c" +:+ " = $3)))",
        [1; 2; 3]).
Proof.
  intros fm s.
  assert (H : fieldsAll plain fm s = true) by (vm_compute; reflexivity).
  split; [exact H |].
  exact (proj2 (C4_and_or_structure fm 1 2 3) H).
Defined.

(** C5 for a mapped field with three values. *)
Lemma C5_witness :
  let fm : gmap string string := <["Status" := "status"]> ∅ in
  plain (mapField (@NewVisitor Z fm) "Status") = true
  /\ BuildQuery (Accept (In "Status" [1; 2; 3]) (NewVisitor fm))
       "SELECT * FROM t"
     = ("SELECT * FROM t" +:+ " WHERE "
          +:+ mapField (@NewVisitor Z fm) "Status" +:+ " IN ($1, $2, $3)",
        [1; 2; 3]).
Proof.
  intros fm.
  assert (H : plain (mapField (@NewVisitor Z fm) "Status") = true)
    by (vm_compute; reflexivity).
  split; [exact H |].
  pose proof (C5_in_fragment fm "Status" "SELECT * FROM t" 1 2 3
                (NewVisitor fm)) as T.
  destruct T as (_ & _ & T). exact (proj2 (T H)).
Defined.

(** C5 as stated fails for a field with [?]: the markers of the values
    start at [$2]. *)
Lemma C5_counterexample :
  BuildQuery (Accept (In "a?" [1; 2; 3]) (NewVisitor ∅)) "SELECT * FROM t"
  = ("SELECT * FROM t WHERE a$1 IN ($2, $3, $4)", [1; 2; 3])
  /\ whereClause (Accept (In "a?" [1; 2; 3]) (@NewVisitor Z ∅))
     <> mapField (@NewVisitor Z ∅) "a?" +:+ " IN ($1, $2, $3)".
Proof. vm_compute. split; [reflexivity | discriminate]. Qed.

(** C7 on an accumulator that holds one clause. *)
Lemma C7_witness :
  let v : Visitor Z :=
    Accept (OrderBy "ID" "DESC") (NewVisitor (<["ID" := "id"]> ∅)) in
  orderClauses v <> []
  /\ orderTail v = " ORDER BY " +:+ Join (orderClauses v) ", ".
Proof.
  intros v.
  assert (H : orderClauses v <> []) by (vm_compute; discriminate).
  split; [exact H |].
  pose proof (C7_order_by "ID" "DESC" "SELECT * FROM t" (Limit 1) [] v) as T.
  cbv zeta in T. destruct T as (_ & _ & _ & _ & _ & Ho & _). exact (Ho H).
Defined.


(** C9 at [Equal("a?", 1)]: two markers for one argument. *)
Lemma C9_witness :
  let s : Specification Z := Equal "a?" 1 in
  let v := Accept s (NewVisitor ∅) in
  comparison s = Some ("a?", "=")
  /\ (0 < countQ (mapField (@NewVisitor Z ∅) "a?"))%nat
  /\ (length (snd (BuildQuery v "SELECT * FROM t")) < length (whereMarkers v))%nat
  /\ whereClause v <> mapField (@NewVisitor Z ∅) "a?" +:+ " " +:+ "=" +:+ " $1".
Proof.
  intros s v.
  assert (H1 : comparison s = Some ("a?", "=")) by reflexivity.
  assert (H2 : (0 < countQ (mapField (@NewVisitor Z ∅) "a?"))%nat)
    by (vm_compute; lia).
  split; [exact H1 |]. split; [exact H2 |].
  pose proof (C9_question_mark_in_field ∅ s "a?" "=" "SELECT * FROM t" H1 H2)
    as T.
  cbv zeta in T. destruct T as (_ & _ & Hlt & _ & _ & Hne).
  split; [exact Hlt | exact Hne].
Defined.

(** What the code does at [Equal("a?", 1)]. *)
Example C9_example :
  BuildQuery (Accept (Equal "a?" 1) (@NewVisitor Z ∅)) "SELECT * FROM t"
  = ("SELECT * FROM t WHERE a$1 = $2", [1]).
Proof. vm_compute. reflexivity. Qed.

(** A byte that is not valid UTF-8 is written back as U+FFFD. *)
Example invalid_byte_example :
  BuildQuery (Accept (Equal (String (chr 255) "") 1) (@NewVisitor Z ∅))
             "SELECT * FROM t"
  = ("SELECT * FROM t WHERE "
       +:+ String (chr 239) (String (chr 191) (String (chr 189) ""))
       +:+ " = $1",
     [1]).
Proof. vm_compute. reflexivity. Qed.

(** * Further properties of the visitor *)

Import Shape.

Section More.
Context {V : Type}.
Implicit Types (v : Visitor V) (s : Specification V).

Lemma fragments_at_most_one (fm : gmap string string) s :
  (length (fragments fm s) <= 1)%nat.
Proof.
  destruct s; cbn [fragments]; try (cbn; lia).
  - destruct values; cbn; lia.
  - unfold group. destruct (flat_map _ specs); cbn; lia.
  - unfold group. destruct (flat_map _ specs); cbn; lia.
Qed.

(** X1.  Whatever the accumulator already holds, accepting a tree only
    appends to it: the conditions, the arguments and the order clauses it
    held stay in place, in order, followed by the fragments, the values and
    the order clauses of the tree; a tree adds at most one condition
    fragment; and the field table is left as it was. *)
Theorem X1_accept_appends s v :
  conditions (Accept s v) = conditions v ++ fragments (fieldMap v) s
  /\ args (Accept s v) = args v ++ leafValues s
  /\ orderClauses (Accept s v) = orderClauses v ++ orderOf (fieldMap v) s
  /\ fieldMap (Accept s v) = fieldMap v
  /\ (length (fragments (fieldMap v) s) <= 1)%nat.
Proof.
  rewrite Accept_walk. destruct (walk_adds s v) as (Hc & Ha & Ho & Hf).
  repeat split; try assumption. apply fragments_at_most_one.
Qed.

Lemma list_sum_flat_map {A B : Type} (h : B -> nat) (f : A -> list B)
    (l : list A) :
  list_sum (map h (flat_map f l))
  = list_sum (map (fun x => list_sum (map h (f x))) l).
Proof.
  induction l as [|x l IH]; [reflexivity |].
  cbn [flat_map map]. rewrite map_app, list_sum_app, IH. reflexivity.
Qed.

Lemma sumQ_children {A : Type} (f : A -> list string) (c n : A -> nat)
    (l : list A) :
  Forall (fun x => sumQ (f x) = (c x + n x)%nat) l ->
  sumQ (flat_map f l) = (list_sum (map c l) + list_sum (map n l))%nat.
Proof.
  induction 1 as [|x l Hx _ IH]; [reflexivity |].
  cbn [flat_map map]. rewrite sumQ_app, Hx, IH.
  change (list_sum (?a :: ?r)) with (a + list_sum r)%nat. lia.
Qed.

(** The [?] of the fragments of a tree are its value slots and the [?] of
    its storage names. *)
Lemma fragments_count_names (fm : gmap string string) s :
  sumQ (fragments fm s) = (valueCount s + nameQ fm s)%nat.
Proof.
  tree_induction s specs IH.
  - destruct s; try exact I; unfold nameQ;
      cbn [whereFields fragments valueCount map];
      try reflexivity;
      try (rewrite sumQ_cons, countQ_app;
           change (list_sum [?a]) with (a + 0)%nat;
           change (sumQ []) with 0%nat;
           match goal with
           | |- context [countQ ?t] =>
             match t with
             | String _ _ => change (countQ t) with 1%nat
             end
           end; lia).
    destruct values as [|x values]; [reflexivity |].
    cbn [map]. rewrite sumQ_cons.
    rewrite !countQ_app, countQ_Join, sumQ_replicate by reflexivity.
    change (countQ " IN (") with 0%nat. change (countQ ")") with 0%nat.
    change (sumQ []) with 0%nat.
    change (list_sum [?a]) with (a + 0)%nat. lia.
  - unfold nameQ. cbn [whereFields fragments valueCount].
    rewrite sumQ_group by reflexivity.
    rewrite (sumQ_children _ valueCount (nameQ fm)) by exact IH.
    now rewrite list_sum_flat_map.
  - unfold nameQ. cbn [whereFields fragments valueCount].
    rewrite sumQ_group by reflexivity.
    rewrite (sumQ_children _ valueCount (nameQ fm)).
    + now rewrite list_sum_flat_map.
    + eapply Forall_impl; [exact IH |]. cbn. intros s Hs.
      now rewrite sumQ_group by reflexivity.
Qed.

(** X2.  For every tree and every field table, compiled with a fresh
    visitor: [BuildQuery] writes one positional marker per value payload
    plus one per [?] byte of the storage names written into the conditions,
    while it returns one argument per value payload; so the markers exceed
    the arguments by exactly the number of [?] in those names. *)
Theorem X2_marker_excess (fm : gmap string string) s (baseQuery : string) :
  let v := Accept s (NewVisitor fm) in
  length (whereMarkers v) = (valueCount s + nameQ fm s)%nat
  /\ length (snd (BuildQuery v baseQuery)) = valueCount s
  /\ length (whereMarkers v)
     = (length (snd (BuildQuery v baseQuery)) + nameQ fm s)%nat.
Proof.
  cbv zeta. destruct (Accept_fresh fm s) as (Hc & Ha & _). cbv zeta in Hc, Ha.
  assert (Hm : length (whereMarkers (Accept s (NewVisitor fm)))
               = (valueCount s + nameQ fm s)%nat).
  { rewrite whereMarkers_eq, Hc, fragments_count_names. unfold indices.
    now rewrite !length_map, length_seq. }
  assert (Hl : length (snd (BuildQuery (Accept s (NewVisitor fm)) baseQuery))
               = valueCount s).
  { rewrite BuildQuery_tails. cbn [snd]. rewrite Ha.
    apply leafValues_length. }
  split; [exact Hm |]. split; [exact Hl |]. now rewrite Hm, Hl.
Qed.

(** X3.  Whatever the accumulator holds (after any number of visits, and
    whether or not its conditions are valid UTF-8), the loop of
    [BuildQuery] writes the markers [$1], [$2], ... in this order, one per
    [?] byte of the conditions, and leaves no [?] in the WHERE text; the
    arguments are returned as they are. *)
Theorem X3_renumbering v (baseQuery : string) :
  whereMarkers v = map marker (indices 1 (sumQ (conditions v)))
  /\ countQ (whereClause v) = 0%nat
  /\ (conditions v <> [] ->
      fst (BuildQuery v baseQuery)
      = baseQuery +:+ " WHERE " +:+ whereClause v +:+ orderTail v
          +:+ limitTail v +:+ offsetTail v)
  /\ snd (BuildQuery v baseQuery) = args v.
Proof.
  split; [apply whereMarkers_eq |]. split; [apply whereClause_countQ |].
  rewrite BuildQuery_tails. cbn [fst snd]. split; [| reflexivity].
  intros H. unfold whereTail. rewrite len_pos.
  destruct (conditions v); [contradiction |].
  now rewrite !sapp_assoc.
Qed.

(** The children of an [And], visited into a fresh accumulator. *)
Lemma children_fresh (fm : gmap string string)
    (specs : list (Specification V)) :
  let sub := fold_left (fun sub s => Accept s sub) specs (NewVisitor fm) in
  conditions sub = flat_map (fragments fm) specs
  /\ args sub = flat_map leafValues specs
  /\ orderClauses sub = flat_map (orderOf fm) specs.
Proof.
  cbv zeta. rewrite fold_Accept_walk.
  assert (H : Forall (fun s => forall v, adds s v (walk s v)) specs)
    by (apply List.Forall_forall; intros s _; apply walk_adds).
  destruct (adds_children specs H (NewVisitor fm)) as (Hc & Ha & Ho & _).
  repeat split; assumption.
Qed.

(** X4.  Wrapping specifications in one [And] changes the query built from
    them in one way only: when their storage names are valid UTF-8, the
    query of [And(s1, ..., sn)] is that of [s1], ..., [sn] accepted one
    after the other by the same fresh visitor, with the WHERE text put
    between parentheses; the ORDER BY, LIMIT and OFFSET parts and the
    arguments are the same. *)
Theorem X4_and_wraps (fm : gmap string string)
    (specs : list (Specification V)) (baseQuery : string) :
  fieldsAll ValidString fm (And specs) = true ->
  let one_by_one := fold_left (fun a s => Accept s a) specs (NewVisitor fm) in
  let wrapped := Accept (And specs) (NewVisitor fm) in
  snd (BuildQuery wrapped baseQuery) = snd (BuildQuery one_by_one baseQuery)
  /\ fst (BuildQuery wrapped baseQuery)
     = baseQuery
         +:+ match conditions one_by_one with
             | [] => ""
             | _ => " WHERE (" +:+ whereClause one_by_one +:+ ")"
             end
         +:+ orderTail one_by_one +:+ limitTail one_by_one
         +:+ offsetTail one_by_one
  /\ fst (BuildQuery one_by_one baseQuery)
     = baseQuery
         +:+ match conditions one_by_one with
             | [] => ""
             | _ => " WHERE " +:+ whereClause one_by_one
             end
         +:+ orderTail one_by_one +:+ limitTail one_by_one
         +:+ offsetTail one_by_one.
Proof.
  intros Hv. cbv zeta. rewrite !BuildQuery_tails. cbn [fst snd].
  set (sub := fold_left (fun a s => Accept s a) specs (NewVisitor fm)).
  pose proof (VisitAnd_fields walk specs (NewVisitor fm)) as F.
  cbv zeta in F. rewrite <- fold_Accept_walk in F.
  change (VisitAnd walk specs (NewVisitor fm))
    with (Accept (And specs) (@NewVisitor V fm)) in F.
  change (fieldMap (@NewVisitor V fm)) with fm in F. fold sub in F.
  cbn [NewVisitor conditions args orderClauses limit offset app] in F.
  destruct F as (Fc & Fa & Fo & _ & Fl & Ff).
  destruct (children_fresh fm specs) as (Hc & Ha & _). fold sub in Hc, Ha.
  assert (Hvalid : Forall (fun c => ValidString c = true) (conditions sub)).
  { rewrite Hc. apply Forall_flat_map.
    unfold fieldsAll in Hv. cbn [whereFields] in Hv.
    apply fieldsAll_children in Hv.
    eapply Forall_impl; [exact Hv |]. cbn. intros s. apply fragments_valid. }
  assert (Hargs : args (Accept (And specs) (@NewVisitor V fm)) = args sub).
  { rewrite Fa, Hc, Ha.
    destruct (flat_map (fragments fm) specs) eqn:E; [| reflexivity].
    symmetry. apply flat_map_nil. apply flat_map_nil in E.
    eapply Forall_impl; [exact E |]. cbn.
    intros s. apply fragments_nil_values. }
  assert (Hlim : limitTail (Accept (And specs) (@NewVisitor V fm))
                 = limitTail sub).
  { unfold limitTail. rewrite Fl.
    destruct (0 <? limit sub) eqn:E; [now rewrite E | reflexivity]. }
  assert (Hoff : offsetTail (Accept (And specs) (@NewVisitor V fm))
                 = offsetTail sub).
  { unfold offsetTail. rewrite Ff.
    destruct (0 <? offset sub) eqn:E; [now rewrite E | reflexivity]. }
  assert (Hord : orderTail (Accept (And specs) (@NewVisitor V fm))
                 = orderTail sub).
  { unfold orderTail. now rewrite Fo. }
  assert (Hwh : whereTail (Accept (And specs) (@NewVisitor V fm))
                = match conditions sub with
                  | [] => ""
                  | _ => " WHERE (" +:+ whereClause sub +:+ ")"
                  end).
  { unfold whereTail.
    rewrite len_pos, (whereClause_number sub), whereClause_number, Fc.
    revert Hvalid. destruct (conditions sub) as [|c l]; intros Hvalid;
      [reflexivity |].
    unfold group.
    change (Join ["(" +:+ ?x +:+ ")"] " AND ") with ("(" +:+ x +:+ ")").
    rewrite (number_plain_app 1 "(") by reflexivity.
    rewrite number_app
      by (apply ValidString_Join; [exact Hvalid | reflexivity]).
    rewrite (number_plain _ ")") by reflexivity.
    reflexivity. }
  rewrite Hargs, Hlim, Hoff, Hord, Hwh.
  repeat split. unfold whereTail. rewrite len_pos.
  now destruct (conditions sub).
Qed.

Lemma lastPositive_pos (l : list Z) :
  forall d, 0 < d -> 0 < lastPositive l d.
Proof.
  unfold lastPositive. induction l as [|x l IH]; intros d Hd; [exact Hd |].
  cbn [fold_left]. apply IH.
  destruct (0 <? x) eqn:E; [now apply Z.ltb_lt in E | exact Hd].
Qed.

Lemma lastPositive_default (l : list Z) (d : Z) :
  lastPositive l d
  = if 0 <? lastPositive l 0 then lastPositive l 0 else d.
Proof.
  revert d. induction l as [|x l IH]; intros d; [reflexivity |].
  unfold lastPositive in *. cbn [fold_left].
  destruct (0 <? x) eqn:E.
  - apply Z.ltb_lt in E. pose proof (lastPositive_pos l x E) as H.
    unfold lastPositive in H. apply Z.ltb_lt in H. now rewrite H.
  - change (0 <? 0) with false. cbv iota. apply IH.
Qed.

(** The accumulator [VisitOr] collects its branches into holds, as limit
    and offset, the last strictly positive ones among those the branches
    reach on their own. *)
Lemma collected_limit_offset (specs : list (Specification V)) v :
  forall (sub : Visitor V) (orParts : list string),
    let st := fold_left (VisitOr_step Accept v) specs (sub, orParts) in
    limit (fst st)
    = lastPositive
        (map (fun s => limit (Accept s (NewVisitor (fieldMap v)))) specs)
        (limit sub)
    /\ offset (fst st)
       = lastPositive
           (map (fun s => offset (Accept s (NewVisitor (fieldMap v)))) specs)
           (offset sub).
Proof.
  induction specs as [|s specs IH]; intros sub orParts; [split; reflexivity |].
  cbn [fold_left map]. unfold lastPositive. cbn [fold_left].
  pose proof (VisitOr_step_fields Accept v sub orParts s) as F.
  cbv zeta in F. destruct F as (_ & _ & _ & _ & Fl & Fo).
  destruct (VisitOr_step Accept v (sub, orParts) s) as [sub' parts'].
  cbn [fst] in Fl, Fo. specialize (IH sub' parts'). cbv zeta in IH.
  unfold lastPositive in IH. now rewrite Fl, Fo in IH.
Qed.

(** X5.  After an [Or], the limit is the last strictly positive limit
    among those its branches reach, each compiled on its own, and the
    limit held before when no branch reaches one; the same for the offset.
    A branch that ends with limit zero, as [Limit(0)] does, erases
    nothing, in contrast with what it does among the children of an
    [And]. *)
Theorem X5_or_last_positive (specs : list (Specification V)) v :
  limit (Accept (Or specs) v)
  = lastPositive
      (map (fun s => limit (Accept s (NewVisitor (fieldMap v)))) specs)
      (limit v)
  /\ offset (Accept (Or specs) v)
     = lastPositive
         (map (fun s => offset (Accept s (NewVisitor (fieldMap v)))) specs)
         (offset v).
Proof.
  pose proof (VisitOr_fields walk specs v) as F. cbv zeta in F.
  rewrite <- fold_VisitOr_step_walk in F.
  destruct F as (_ & _ & _ & _ & Fl & Fo).
  change (VisitOr walk specs v) with (Accept (Or specs) v) in Fl, Fo.
  destruct (collected_limit_offset specs v (NewVisitor (fieldMap v)) [])
    as (Hl & Ho).
  cbv zeta in Hl, Ho. cbn [NewVisitor limit offset] in Hl, Ho.
  rewrite Fl, Fo, Hl, Ho. split; symmetry; apply lastPositive_default.
Qed.

(** A tree without [Limit] node ends with the limit it started with, and
    likewise for [Offset]. *)
Lemma no_limit_node s :
  forall v, (hasLimit s = false -> limit (walk s v) = limit v)
            /\ (hasOffset s = false -> offset (walk s v) = offset v).
Proof.
  tree_induction s specs IH.
  - destruct s; try exact I; intros v; split; intros H;
      try discriminate H; try reflexivity;
      unfold walk, VisitIn; cbv zeta; destruct (len values =? 0);
      try reflexivity; destruct (VisitIn_loop _ _ _); reflexivity.
  - intros v. cbn [hasLimit hasOffset walk].
    pose proof (VisitAnd_fields walk specs v) as F. cbv zeta in F.
    destruct F as (_ & _ & _ & _ & Fl & Fo). rewrite Fl, Fo.
    assert (G : forall v0,
               (existsb hasLimit specs = false ->
                limit (fold_left (fun sub s => walk s sub) specs v0) = limit v0)
               /\ (existsb hasOffset specs = false ->
                   offset (fold_left (fun sub s => walk s sub) specs v0)
                   = offset v0)).
    { clear Fl Fo v. induction IH as [|s specs Hs _ IHl]; intros v0;
        [split; reflexivity |].
      cbn [existsb fold_left]. rewrite !orb_false_iff.
      destruct (IHl (walk s v0)) as [Gl Go]. destruct (Hs v0) as [Hl Ho].
      split; intros [H1 H2].
      - now rewrite Gl, Hl.
      - now rewrite Go, Ho. }
    destruct (G (NewVisitor (fieldMap v))) as [Gl Go].
    split; intros H; [rewrite (Gl H) | rewrite (Go H)]; reflexivity.
  - intros v. cbn [hasLimit hasOffset walk].
    pose proof (VisitOr_fields walk specs v) as F. cbv zeta in F.
    destruct F as (_ & _ & _ & _ & Fl & Fo). rewrite Fl, Fo.
    assert (G : forall st,
               (existsb hasLimit specs = false ->
                limit (fst (fold_left (VisitOr_step walk v) specs st))
                = limit (fst st))
               /\ (existsb hasOffset specs = false ->
                   offset (fst (fold_left (VisitOr_step walk v) specs st))
                   = offset (fst st))).
    { clear Fl Fo. induction IH as [|s specs Hs _ IHl]; intros st;
        [split; reflexivity |].
      cbn [existsb fold_left]. rewrite !orb_false_iff.
      destruct (IHl (VisitOr_step walk v st s)) as [Gl Go].
      destruct (Hs (NewVisitor (fieldMap v))) as [Hl Ho].
      destruct st as [sub parts].
      pose proof (VisitOr_step_fields walk v sub parts s) as F.
      cbv zeta in F. destruct F as (_ & _ & _ & _ & Fl & Fo).
      split; intros [H1 H2].
      - rewrite (Gl H2), Fl, (Hl H1). reflexivity.
      - rewrite (Go H2), Fo, (Ho H1). reflexivity. }
    destruct (G (NewVisitor (fieldMap v), [])) as [Gl Go].
    split; intros H; [rewrite (Gl H) | rewrite (Go H)]; reflexivity.
Qed.

(** X6.  A tree that holds no [Limit] node, however deep, leaves the limit
    of the accumulator as it was, and a tree that holds no [Offset] node
    leaves its offset as it was: only these nodes ever touch the two
    fields. *)
Theorem X6_only_limit_nodes_set_limit s v :
  (hasLimit s = false -> limit (Accept s v) = limit v)
  /\ (hasOffset s = false -> offset (Accept s v) = offset v).
Proof. rewrite Accept_walk. apply no_limit_node. Qed.

Lemma existsb_false {A : Type} (p : A -> bool) (l : list A) :
  existsb p l = false <-> Forall (fun x => p x = false) l.
Proof.
  induction l as [|x l IH]; cbn [existsb].
  - split; [constructor | reflexivity].
  - rewrite orb_false_iff, IH. split.
    + intros [H1 H2]. now constructor.
    + intros H. inversion H; subst. now split.
Qed.

Lemma Forall_equiv {A : Type} (P Q : A -> Prop) (l : list A) :
  Forall (fun x => P x <-> Q x) l -> (Forall P l <-> Forall Q l).
Proof.
  induction 1 as [|x l Hx _ IH]; [split; constructor |].
  split; intros H; inversion H; subst; constructor;
    try (now apply Hx); now apply IH.
Qed.

(** A tree writes a condition exactly when it holds a comparison, Like or
    In leaf. *)
Lemma fragments_hasCondition (fm : gmap string string) s :
  fragments fm s = [] <-> hasCondition s = false.
Proof.
  tree_induction s specs IH.
  - destruct s; try exact I; cbn [fragments hasCondition];
      try (split; [discriminate | discriminate]);
      try (split; reflexivity).
    destruct values; split; discriminate.
  - cbn [fragments hasCondition].
    rewrite group_nil, flat_map_nil, existsb_false.
    apply Forall_equiv. exact IH.
  - cbn [fragments hasCondition].
    rewrite group_nil, flat_map_nil, existsb_false.
    apply Forall_equiv. eapply Forall_impl; [exact IH |]. cbn.
    intros s Hs. now rewrite group_nil.
Qed.

(** X7.  The query built from a tree has a WHERE part exactly when the
    tree holds a comparison, Like or In leaf, however deep.  Without such
    a leaf the accumulator holds no condition and no argument and the
    query is the base query followed by the ORDER BY, LIMIT and OFFSET
    parts only; with one, the accumulator holds a single condition, which
    follows WHERE. *)
Theorem X7_where_iff_condition_leaf (fm : gmap string string) s
    (baseQuery : string) :
  let v := Accept s (NewVisitor fm) in
  (hasCondition s = false ->
   conditions v = [] /\ args v = []
   /\ BuildQuery v baseQuery
      = (baseQuery +:+ orderTail v +:+ limitTail v +:+ offsetTail v, []))
  /\ (hasCondition s = true ->
      (exists c, conditions v = [c])
      /\ fst (BuildQuery v baseQuery)
         = baseQuery +:+ " WHERE " +:+ whereClause v +:+ orderTail v
             +:+ limitTail v +:+ offsetTail v).
Proof.
  cbv zeta. destruct (Accept_fresh fm s) as (Hc & Ha & _). cbv zeta in Hc, Ha.
  rewrite BuildQuery_tails. unfold whereTail. rewrite len_pos, Hc, Ha.
  split; intros H.
  - pose proof (proj2 (fragments_hasCondition fm s) H) as H'. rewrite H'.
    rewrite (fragments_nil_values _ _ H'). repeat split.
  - destruct (fragments fm s) as [|c l] eqn:E.
    + apply fragments_hasCondition in E. congruence.
    + pose proof (fragments_at_most_one fm s) as L. rewrite E in L.
      destruct l; [| cbn in L; lia].
      split; [now exists c |]. cbn [fst]. now rewrite !sapp_assoc.
Qed.

Lemma slength_app (a b : string) :
  String.length (a +:+ b) = (String.length a + String.length b)%nat.
Proof.
  induction a as [|x a IH]; [reflexivity |].
  rewrite sapp_cons. cbn [String.length]. now rewrite IH.
Qed.

Lemma Join_length_ge (c : string) (l : list string) (sep : string) :
  (String.length c <= String.length (Join (c :: l) sep))%nat.
Proof.
  cbn [Join]. destruct l; [lia |]. rewrite slength_app. lia.
Qed.

Lemma group_length (sep : string) (parts : list string) :
  Forall (fun c => (3 <= String.length c)%nat) parts ->
  Forall (fun c => (3 <= String.length c)%nat) (group sep parts).
Proof.
  intros H. destruct parts as [|c l]; [constructor |].
  unfold group. constructor; [| constructor].
  rewrite !slength_app. inversion H; subst.
  pose proof (Join_length_ge c l sep). lia.
Qed.

(** Every fragment of a tree is at least three bytes long. *)
Lemma fragments_length (fm : gmap string string) s :
  Forall (fun c => (3 <= String.length c)%nat) (fragments fm s).
Proof.
  tree_induction s specs IH.
  - destruct s; try exact I; cbn [fragments];
      try (constructor; [| constructor]; rewrite slength_app; cbn; lia);
      try constructor.
    destruct values.
    + constructor; [cbn; lia | constructor].
    + constructor; [| constructor]. rewrite !slength_app. cbn. lia.
  - cbn [fragments]. apply group_length. apply Forall_flat_map. exact IH.
  - cbn [fragments]. apply group_length. apply Forall_flat_map.
    eapply Forall_impl; [exact IH |]. cbn. intros s. apply group_length.
Qed.

(** X8.  No visit ever writes an empty condition or an empty pair of
    parentheses: every condition a tree adds to the accumulator is at least
    three bytes long, also under composites that have nothing to group,
    which add nothing at all. *)
Theorem X8_no_empty_condition s v :
  Forall (fun c => (3 <= String.length c)%nat /\ c <> "" /\ c <> "()")
         (drop (length (conditions v)) (conditions (Accept s v))).
Proof.
  rewrite Accept_walk. destruct (walk_adds s v) as (Hc & _).
  rewrite Hc, drop_app_length.
  eapply Forall_impl; [apply fragments_length |]. cbn.
  intros c Hl. split; [exact Hl |].
  split; intros ->; cbn in Hl; lia.
Qed.

(** X10.  For a field [f] whose storage name is valid UTF-8 without [?]
    and any non-empty list of values, [In(f, x1, ..., xn)] compiled alone
    gives [WHERE <name> IN ($1, ..., $n)], with one marker per value and
    the values as arguments, in the same order. *)
Theorem X10_in_any_arity (fm : gmap string string) (f baseQuery : string)
    (xs : list V) :
  xs <> [] ->
  plain (mapField (@NewVisitor V fm) f) = true ->
  BuildQuery (Accept (In f xs) (NewVisitor fm)) baseQuery
  = (baseQuery +:+ " WHERE " +:+ mapField (@NewVisitor V fm) f +:+ " IN ("
       +:+ Join (map marker (indices 1 (length xs))) ", " +:+ ")",
     xs).
Proof.
  intros Hx Hp. destruct xs as [|x xs]; [contradiction |].
  assert (Hall : fieldsAll plain fm (In f (x :: xs)) = true).
  { unfold fieldsAll. cbn [whereFields forallb]. now rewrite andb_true_r. }
  pose proof (whereClause_numbered fm _ Hall) as Hw.
  destruct (Accept_fresh fm (In f (x :: xs))) as (Hc & Ha & Ho & _).
  cbv zeta in Hc, Ha, Ho.
  destruct (no_limit_node (In f (x :: xs)) (NewVisitor fm)) as [Hl Hf].
  rewrite <- Accept_walk in Hl, Hf.
  specialize (Hl eq_refl). specialize (Hf eq_refl).
  rewrite BuildQuery_tails.
  unfold whereTail, orderTail, limitTail, offsetTail.
  rewrite !len_pos, Hw, Hc, Ha, Ho, Hl, Hf.
  cbn [fragments numbered orderOf leafValues NewVisitor limit offset].
  change (0 <? 0) with false. cbv iota.
  change (Join [?c] " AND ") with c.
  now rewrite !sapp_nil_l, sapp_nil_r.
Qed.

End More.

(** ** The query text does not depend on the values *)

Section Values.
Context {V W : Type} (g : V -> W).

Lemma sameText_fresh (fm : gmap string string) :
  sameText g (NewVisitor fm) (NewVisitor fm).
Proof. repeat split. Qed.

Lemma sameText_mapField (v : Visitor V) (w : Visitor W) (f : string) :
  sameText g v w -> mapField w f = mapField v f.
Proof. intros (_ & _ & Hf & _). unfold mapField. now rewrite Hf. Qed.

Lemma sameText_children (specs : list (Specification V)) :
  Forall (fun s => forall v w, sameText g v w ->
                     sameText g (walk s v) (walk (mapValues g s) w)) specs ->
  forall v w, sameText g v w ->
    sameText g (fold_left (fun sub s => walk s sub) specs v)
               (fold_left (fun sub s => walk s sub)
                          (map (mapValues g) specs) w).
Proof.
  induction 1 as [|s specs Hs _ IH]; intros v w H; [exact H |].
  cbn [map fold_left]. apply IH, Hs, H.
Qed.

Lemma sameText_branches (specs : list (Specification V))
    (v : Visitor V) (w : Visitor W) :
  Forall (fun s => forall v w, sameText g v w ->
                     sameText g (walk s v) (walk (mapValues g s) w)) specs ->
  fieldMap w = fieldMap v ->
  forall (sub : Visitor V) (subw : Visitor W) (parts : list string),
    args subw = map g (args sub) ->
    orderClauses subw = orderClauses sub ->
    limit subw = limit sub -> offset subw = offset sub ->
    let st := fold_left (VisitOr_step walk v) specs (sub, parts) in
    let stw := fold_left (VisitOr_step walk w) (map (mapValues g) specs)
                         (subw, parts) in
    snd stw = snd st
    /\ args (fst stw) = map g (args (fst st))
    /\ orderClauses (fst stw) = orderClauses (fst st)
    /\ limit (fst stw) = limit (fst st)
    /\ offset (fst stw) = offset (fst st).
Proof.
  intros IH Hfm. induction IH as [|s specs Hs _ IHl];
    intros sub subw parts Ha Ho Hl Hf; [repeat split; assumption |].
  cbn [map fold_left].
  pose proof (VisitOr_step_fields walk v sub parts s) as F.
  pose proof (VisitOr_step_fields walk w subw parts (mapValues g s)) as G.
  cbv zeta in F, G.
  destruct F as (Fp & Fa & Fo & _ & Fl & Ff).
  destruct G as (Gp & Ga & Go & _ & Gl & Gf).
  assert (T : sameText g (walk s (NewVisitor (fieldMap v)))
                         (walk (mapValues g s) (NewVisitor (fieldMap w)))).
  { apply Hs. rewrite Hfm. apply sameText_fresh. }
  destruct T as (Tc & Ta & _ & To & Tl & Tf).
  destruct (VisitOr_step walk v (sub, parts) s) as [sub' parts'].
  destruct (VisitOr_step walk w (subw, parts) (mapValues g s))
    as [subw' partsw'].
  cbn [fst snd] in *.
  assert (E : partsw' = parts') by (now rewrite Gp, Fp, Tc).
  rewrite E. apply IHl.
  - rewrite Ga, Fa, Tc, Ta, Ha, map_app.
    now destruct (conditions (walk s (NewVisitor (fieldMap v)))).
  - now rewrite Go, Fo, To, Ho.
  - now rewrite Gl, Fl, Tl, Hl.
  - now rewrite Gf, Ff, Tf, Hf.
Qed.

(** Visiting the same tree over other values does the same to the text of
    the accumulator. *)
Lemma walk_sameText (s : Specification V) :
  forall (v : Visitor V) (w : Visitor W),
    sameText g v w -> sameText g (walk s v) (walk (mapValues g s) w).
Proof.
  tree_induction s specs IH.
  - destruct s; try exact I; intros v w H;
      pose proof (sameText_mapField v w field H) as Hm || idtac;
      destruct H as (Hc & Ha & Hf & Ho & Hl & Hx);
      try solve [unfold sameText; cbn; rewrite ?Hm, ?Hc, ?Ha, ?Hf, ?Ho, ?Hl,
                   ?Hx, ?map_app; repeat split; reflexivity].
    change (mapValues g (In field values)) with (In field (map g values)).
    destruct (walk_adds (In field values) v) as (A1 & A2 & A3 & A4).
    destruct (walk_adds (In field (map g values)) w) as (B1 & B2 & B3 & B4).
    destruct (no_limit_node (In field values) v) as [L1 L2].
    destruct (no_limit_node (In field (map g values)) w) as [M1 M2].
    unfold sameText.
    rewrite A1, A2, A3, A4, B1, B2, B3, B4, (L1 eq_refl), (L2 eq_refl),
      (M1 eq_refl), (M2 eq_refl), Hc, Ha, Hf, Ho, Hl, Hx, map_app.
    cbn [fragments leafValues orderOf].
    destruct values; cbn [map length]; rewrite ?length_map;
      repeat split; reflexivity.
  - intros v w H. cbn [walk mapValues].
    pose proof (VisitAnd_fields walk specs v) as F.
    pose proof (VisitAnd_fields walk (map (mapValues g) specs) w) as G.
    cbv zeta in F, G.
    destruct F as (Fc & Fa & Fo & Ff & Fl & Fx).
    destruct G as (Gc & Ga & Go & Gf & Gl & Gx).
    destruct H as (Hc & Ha & Hf & Ho & Hl & Hx).
    assert (T : sameText g
                  (fold_left (fun sub s => walk s sub) specs
                             (NewVisitor (fieldMap v)))
                  (fold_left (fun sub s => walk s sub)
                             (map (mapValues g) specs)
                             (NewVisitor (fieldMap w)))).
    { apply sameText_children; [exact IH |]. rewrite Hf.
      apply sameText_fresh. }
    destruct T as (Tc & Ta & _ & To & Tl & Tx).
    unfold sameText. rewrite Gc, Ga, Go, Gf, Gl, Gx, Fc, Fa, Fo, Ff, Fl, Fx.
    rewrite Tc, Ta, To, Tl, Tx, Hc, Ha, Hf, Ho, Hl, Hx, map_app.
    repeat split; try reflexivity.
    now destruct (conditions (fold_left _ specs _)).
  - intros v w H. cbn [walk mapValues].
    pose proof (VisitOr_fields walk specs v) as F.
    pose proof (VisitOr_fields walk (map (mapValues g) specs) w) as G.
    cbv zeta in F, G.
    destruct F as (Fc & Fa & Fo & Ff & Fl & Fx).
    destruct G as (Gc & Ga & Go & Gf & Gl & Gx).
    destruct H as (Hc & Ha & Hf & Ho & Hl & Hx).
    destruct (sameText_branches specs v w IH Hf
                (NewVisitor (fieldMap v)) (NewVisitor (fieldMap w)) []
                eq_refl eq_refl eq_refl eq_refl)
      as (Tp & Ta & To & Tl & Tx).
    cbv zeta in Tp, Ta, To, Tl, Tx.
    unfold sameText. rewrite Gc, Ga, Go, Gf, Gl, Gx, Fc, Fa, Fo, Ff, Fl, Fx.
    rewrite Tp, Ta, To, Tl, Tx, Hc, Ha, Hf, Ho, Hl, Hx, map_app.
    repeat split; try reflexivity.
    now destruct (snd (fold_left _ specs _)).
Qed.

(** X9.  The text of the query does not depend on the values a tree
    carries, only on its shape: replacing every value payload by its image
    under any function gives the same query text, and the arguments are the
    images of the arguments, in the same order.  No value is ever written
    into the text. *)
Theorem X9_text_independent_of_values (fm : gmap string string)
    (s : Specification V) (baseQuery : string) :
  BuildQuery (Accept (mapValues g s) (NewVisitor fm)) baseQuery
  = (fst (BuildQuery (Accept s (NewVisitor fm)) baseQuery),
     map g (snd (BuildQuery (Accept s (NewVisitor fm)) baseQuery))).
Proof.
  rewrite !Accept_walk.
  destruct (walk_sameText s _ _ (sameText_fresh fm))
    as (Hc & Ha & _ & Ho & Hl & Hx).
  rewrite !BuildQuery_tails. cbn [fst snd].
  unfold whereTail, whereClause, orderTail, limitTail, offsetTail.
  now rewrite Hc, Ha, Ho, Hl, Hx.
Qed.

End Values.

(** X3 on an accumulator that has accepted two trees. *)
Lemma X3_witness :
  let v : Visitor Z :=
    Accept (In "b" [2; 3]) (Accept (Equal "a" 1) (NewVisitor ∅)) in
  conditions v <> []
  /\ fst (BuildQuery v "SELECT * FROM t")
     = "SELECT * FROM t" +:+ " WHERE " +:+ whereClause v +:+ orderTail v
         +:+ limitTail v +:+ offsetTail v.
Proof.
  intros v.
  assert (H : conditions v <> []) by (vm_compute; discriminate).
  split; [exact H |].
  destruct (X3_renumbering v "SELECT * FROM t") as (_ & _ & T & _).
  exact (T H).
Defined.

(** X4 on three specifications, one of them a nested [Or]. *)
Lemma X4_witness :
  let fm : gmap string string := <["ID" := "id"]> ∅ in
  let specs : list (Specification Z) :=
    [Equal "ID" 1; Or [Like "n" 2; In "k" [3; 4]]; Limit 10] in
  fieldsAll ValidString fm (And specs) = true
  /\ snd (BuildQuery (Accept (And specs) (NewVisitor fm)) "SELECT * FROM t")
     = snd (BuildQuery (fold_left (fun a s => Accept s a) specs (NewVisitor fm))
                       "SELECT * FROM t").
Proof.
  intros fm specs.
  assert (H : fieldsAll ValidString fm (And specs) = true)
    by (vm_compute; reflexivity).
  split; [exact H |].
  exact (proj1 (X4_and_wraps fm specs "SELECT * FROM t" H)).
Defined.

(** X6 on a tree with an [Offset] node and no [Limit] node. *)
Lemma X6_witness :
  let s : Specification Z := And [Equal "a" 1; Or [Offset 3; OrderBy "a" "ASC"]] in
  let v : Visitor Z := Accept (Limit 7) (NewVisitor ∅) in
  hasLimit s = false /\ limit (Accept s v) = limit v.
Proof.
  intros s v.
  assert (H : hasLimit s = false) by reflexivity.
  split; [exact H |].
  exact (proj1 (X6_only_limit_nodes_set_limit s v) H).
Defined.

(** X7 on a tree without condition leaf and on one with such a leaf. *)
Lemma X7_witness :
  let quiet : Specification Z := Or [OrderBy "a" "ASC"; And [Limit 3]] in
  let loud : Specification Z := Or [OrderBy "a" "ASC"; And [In "b" []]] in
  (hasCondition quiet = false
   /\ conditions (Accept quiet (NewVisitor ∅)) = [])
  /\ (hasCondition loud = true
      /\ exists c, conditions (Accept loud (NewVisitor ∅)) = [c]).
Proof.
  intros quiet loud.
  assert (H1 : hasCondition quiet = false) by reflexivity.
  assert (H2 : hasCondition loud = true) by reflexivity.
  split; (split; [assumption |]).
  - exact (proj1 (proj1 (X7_where_iff_condition_leaf ∅ quiet "q") H1)).
  - exact (proj1 (proj2 (X7_where_iff_condition_leaf ∅ loud "q") H2)).
Defined.

(** X10 with five values and a mapped field. *)
Lemma X10_witness :
  let fm : gmap string string := <["Status" := "status"]> ∅ in
  let xs : list Z := [10; 20; 30; 40; 50] in
  xs <> []
  /\ plain (mapField (@NewVisitor Z fm) "Status") = true
  /\ BuildQuery (Accept (In "Status" xs) (NewVisitor fm)) "SELECT * FROM t"
     = ("SELECT * FROM t" +:+ " WHERE "
          +:+ mapField (@NewVisitor Z fm) "Status" +:+ " IN ("
          +:+ Join (map marker (indices 1 (length xs))) ", " +:+ ")",
        xs).
Proof.
  intros fm xs.
  assert (H1 : xs <> []) by discriminate.
  assert (H2 : plain (mapField (@NewVisitor Z fm) "Status") = true)
    by (vm_compute; reflexivity).
  split; [exact H1 |]. split; [exact H2 |].
  exact (X10_in_any_arity fm "Status" "SELECT * FROM t" xs H1 H2).
Defined.
